(** * PeerManager: the peer registry and discovery engine of lisk_argus

    A shallow embedding of [src/peers/PeerManager.ts].  The manager keeps a
    JavaScript [Map] from nonce to [Peer] object, a best height and a best
    broadhash.  The [Peer] class, the [PeerInfo]/[PeerOptions] types and the
    semver range test come from external packages (libargus, semver); they
    enter the development as an interface ([PeerConnection]) and as section
    variables, so that every theorem holds for any implementation of them.

    Numbers are integers ([Z]); where a property needs heights to be block
    counts, hence not negative, it says so in a hypothesis.  The log lines
    written at the end of [updatePeers] and in [addPeer] are not part of the
    state and are left out. *)

From Stdlib Require Import List String Ascii ZArith Lia Bool Arith Permutation.
From Stdlib Require DecimalString.
Import ListNotations.

Local Open Scope string_scope.
Local Open Scope Z_scope.
Local Open Scope list_scope.

Set Implicit Arguments.
Set Default Proof Using "Type".

(** ** Data of the libargus package, as the manager uses it *)

(** [PeerInfo]: what a peer reports about another node. *)
Record PeerInfo := mkPeerInfo {
  ip : string;
  wsPort : Z;
  httpPort : Z;
  version : string;
  nonce : string
}.

(** [PeerOptions]: the first argument of [new Peer(...)]. *)
Record PeerOptions := mkPeerOptions {
  opt_ip : string;
  opt_wsPort : Z;
  opt_httpPort : Z;
  opt_nethash : string;
  opt_nonce : string
}.

(** [OwnNodeOptions]: the identity of the monitoring node itself. *)
Record OwnNodeOptions := mkOwnNode {
  own_nonce : string;
  own_nethash : string
}.

(** The [status] of a peer: [undefined] until a first status arrives. *)
Record NodeStatus := mkStatus {
  height : Z;
  broadhash : string
}.

Inductive PeerState := Online | Offline.

(** The payload of a "status" event has type [any]; the manager reads only
    its [nonce], which may be missing ([None]).  The other fields are read
    by the peer object. *)
Record StatusUpdate := mkUpdate {
  update_nonce : option string;
  update_height : Z;
  update_broadhash : string
}.

(** [config.json]: the fields the manager reads. *)
Record SeedNode := mkSeed {
  seed_host : string;
  seed_wsPort : Z;
  seed_httpPort : Z;
  seed_version : string
}.

Record Config := mkConfig {
  seedNode : SeedNode;
  minVersion : string;
  nethash : string
}.

(** The interface of the libargus [Peer] class: the properties the manager
    reads and the methods it calls.  A method that mutates the object
    returns the new object.  [peer_peers] is the array [peer.peers]; an
    [undefined] element is [None].  The constructor stores its first argument
    in the read-only property [options]. *)
Class PeerConnection (P : Type) := {
  peer_new : PeerOptions -> OwnNodeOptions -> P;
  peer_options : P -> PeerOptions;
  peer_status : P -> option NodeStatus;
  peer_peers : P -> list (option PeerInfo);
  peer_httpActive : P -> bool;
  peer_state : P -> PeerState;
  peer_handleStatusUpdate : StatusUpdate -> P -> P;
  peer_setWebsocketServerConnected : bool -> P -> P;
  peer_new_options : forall o own, peer_options (peer_new o own) = o
}.

(** ** JavaScript helpers *)

Module JS.

(** [s.indexOf(pat)]: position of the first occurrence, [-1] if none. *)
Definition indexOf (s pat : string) : Z :=
  match String.index 0 pat s with
  | Some n => Z.of_nat n
  | None => -1
  end.

(** Truthiness of a possibly missing string: [undefined] and the empty
    string are falsy. *)
Definition truthy (v : option string) : bool :=
  match v with
  | None => false
  | Some s => negb (s =? "")%string
  end.

(** [_.without(l, undefined)] *)
Fixpoint without_undefined {A} (l : list (option A)) : list A :=
  match l with
  | [] => []
  | None :: l' => without_undefined l'
  | Some x :: l' => x :: without_undefined l'
  end.

(** A result that is either a thrown [Error] with its message or a value. *)
Inductive result (A : Type) :=
| Throw (msg : string)
| Return (a : A).
Arguments Throw {A} msg.
Arguments Return {A} a.

End JS.

(** A JavaScript [Map] with string keys: iteration follows insertion order,
    so the map is a list of entries; [set] on a present key replaces the
    value in place, on an absent key it appends the entry. *)
Module JSMap.
Section Ops.
Variable V : Type.

Definition t := list (string * V).

Definition empty : t := [].

Fixpoint get (m : t) (k : string) : option V :=
  match m with
  | [] => None
  | (k', v) :: m' => if (k' =? k)%string then Some v else get m' k
  end.

Definition has (m : t) (k : string) : bool :=
  match get m k with Some _ => true | None => false end.

Fixpoint set (m : t) (k : string) (v : V) : t :=
  match m with
  | [] => [(k, v)]
  | (k', v') :: m' =>
      if (k' =? k)%string then (k', v) :: m' else (k', v') :: set m' k v
  end.

Definition keys (m : t) : list string := map fst m.
Definition values (m : t) : list V := map snd m.

(** Number of entries stored under a key. *)
Definition count (m : t) (k : string) : nat :=
  List.length (filter (fun e => (fst e =? k)%string) m).

End Ops.
End JSMap.

(** ** The manager *)

Section PeerManager.
Context {P : Type} `{PC : PeerConnection P}.

(** [semver.satisfies(version, range)] *)
Variable satisfies : string -> string -> bool.
Variable config : Config.
Variable ownNode : OwnNodeOptions.

(** The fields of the class. *)
Record PeerManager := mkManager {
  _peers : JSMap.t P;
  bestHeight : Z;
  bestBroadhash : string
}.

Definition with_peers (m : PeerManager) (ps : JSMap.t P) : PeerManager :=
  {| _peers := ps; bestHeight := bestHeight m; bestBroadhash := bestBroadhash m |}.

(** The getter [peers]. *)
Definition peers (m : PeerManager) : list P := JSMap.values (_peers m).

(** The object [addPeer] constructs for an admitted candidate. *)
Definition new_peer_of (peer : PeerInfo) : P :=
  peer_new {| opt_ip := ip peer; opt_wsPort := wsPort peer;
              opt_httpPort := httpPort peer; opt_nethash := nethash config;
              opt_nonce := nonce peer |} ownNode.

Definition addPeer (peer : PeerInfo) (m : PeerManager) : PeerManager :=
  if (nonce peer =? own_nonce ownNode)%string
     || negb (JS.indexOf (nonce peer) "monitoring" =? -1)
  then m
  else if JSMap.has (_peers m) (nonce peer) then m
  else if negb (satisfies (version peer) (minVersion config)) then m
  else with_peers m (JSMap.set (_peers m) (nonce peer) (new_peer_of peer)).

(** First loop of [updatePeers]: the best height over the records that
    have a status. *)
Definition best_step (acc : Z * string) (peer : P) : Z * string :=
  match peer_status peer with
  | Some st => if height st >? fst acc then (height st, broadhash st) else acc
  | None => acc
  end.

(** The flattened list of reported candidates, without [undefined]. *)
Definition peerList (m : PeerManager) : list PeerInfo :=
  JS.without_undefined (flat_map peer_peers (peers m)).

(** Body of the discovery loop: [newPeers] after looking at [peer]. *)
Definition stage_step (registry : list P) (newPeers : list PeerInfo)
    (peer : PeerInfo) : list PeerInfo :=
  match find (fun item => (opt_nonce (peer_options item) =? nonce peer)%string)
             registry with
  | Some _ => newPeers
  | None =>
      match find (fun item => (nonce item =? nonce peer)%string
                              || (nonce peer =? own_nonce ownNode)%string)
                 newPeers with
      | Some _ => newPeers
      | None => newPeers ++ [peer]
      end
  end.

Definition discover (m : PeerManager) : list PeerInfo :=
  fold_left (stage_step (peers m)) (peerList m) [].

Definition updatePeers (m : PeerManager) : PeerManager :=
  let newPeers := discover m in
  let best := fold_left best_step (peers m) (bestHeight m, bestBroadhash m) in
  let m1 := {| _peers := _peers m; bestHeight := fst best; bestBroadhash := snd best |} in
  fold_left (fun acc peer => addPeer peer acc) newPeers m1.

(** [getBestHTTPPeer]: the scan over the shuffled records.  The pair is
    [(bestPeer, bestHeight)]. *)
Definition height_or_0 (peer : P) : Z :=
  match peer_status peer with Some st => height st | None => 0 end.

Definition scan_step (acc : option P * Z) (peer : P) : option P * Z :=
  if negb (peer_httpActive peer) then acc
  else if height_or_0 peer >=? snd acc then (Some peer, height_or_0 peer)
  else acc.

Definition scan (shuffledPeers : list P) : option P * Z :=
  fold_left scan_step shuffledPeers (None, 0).

(** The method once [_.shuffle] has produced [shuffledPeers]. *)
Definition getBestHTTPPeer_of (shuffledPeers : list P) : JS.result P :=
  match fst (scan shuffledPeers) with
  | None => JS.Throw "No best peer found"
  | Some bestPeer => JS.Return bestPeer
  end.

(** [_.shuffle] returns some permutation of the records: [r] is a possible
    outcome of [getBestHTTPPeer]. *)
Definition getBestHTTPPeer (m : PeerManager) (r : JS.result P) : Prop :=
  exists shuffledPeers,
    Permutation shuffledPeers (peers m) /\ getBestHTTPPeer_of shuffledPeers = r.

Definition getBestHeight (m : PeerManager) : Z := bestHeight m.

(** The record a status update is forwarded to, if any. *)
Definition handleStatusUpdate_target (update : StatusUpdate) (m : PeerManager)
    : option (string * P) :=
  if negb (JS.truthy (update_nonce update)) then None
  else match update_nonce update with
       | None => None
       | Some n => match JSMap.get (_peers m) n with
                   | None => None
                   | Some peer => Some (n, peer)
                   end
       end.

Definition handleStatusUpdate (update : StatusUpdate) (m : PeerManager)
    : PeerManager :=
  match handleStatusUpdate_target update m with
  | None => m
  | Some (n, peer) =>
      with_peers m (JSMap.set (_peers m) n (peer_handleStatusUpdate update peer))
  end.

Definition wsServerConnectionChanged (n : string) (connected : bool)
    (m : PeerManager) : PeerManager :=
  if negb (JSMap.has (_peers m) n) then m
  else match JSMap.get (_peers m) n with
       | None => m
       | Some peer =>
           with_peers m
             (JSMap.set (_peers m) n (peer_setWebsocketServerConnected connected peer))
       end.

(** The constructor: the seed node is offered to [addPeer] under the empty
    nonce. *)
Definition seedInfo : PeerInfo :=
  {| ip := seed_host (seedNode config); wsPort := seed_wsPort (seedNode config);
     httpPort := seed_httpPort (seedNode config);
     version := seed_version (seedNode config); nonce := "" |}.

Definition constructor : PeerManager :=
  addPeer seedInfo {| _peers := JSMap.empty P; bestHeight := 0; bestBroadhash := "" |}.

End PeerManager.

Arguments PeerManager : clear implicits.
Arguments mkManager {P} _ _ _.

(** ** Sequences of operations

    The manager is driven by calls of [addPeer], by the one-second timer
    ([updatePeers]) and by the socket server's "status", "connect" and
    "disconnect" events.  Between two calls the peer objects change on their
    own (a status arrives over their connection, their peer list is
    refreshed, the HTTP probe succeeds): [OpTransport f] replaces every
    registered object [peer] stored under [k] by [f k peer]. *)

Inductive Op (P : Type) :=
| OpAddPeer (peer : PeerInfo)
| OpTick
| OpStatus (update : StatusUpdate)
| OpConnection (n : string) (connected : bool)
| OpTransport (f : string -> P -> P).

Arguments OpAddPeer {P} peer.
Arguments OpTick {P}.
Arguments OpStatus {P} update.
Arguments OpConnection {P} n connected.
Arguments OpTransport {P} f.

Section Run.
Context {P : Type} `{PC : PeerConnection P}.
Variable satisfies : string -> string -> bool.
Variable config : Config.
Variable ownNode : OwnNodeOptions.

Definition transport (f : string -> P -> P) (m : PeerManager P) : PeerManager P :=
  with_peers m (map (fun e => (fst e, f (fst e) (snd e))) (_peers m)).

Definition step (m : PeerManager P) (op : Op P) : PeerManager P :=
  match op with
  | OpAddPeer peer => addPeer satisfies config ownNode peer m
  | OpTick => updatePeers satisfies config ownNode m
  | OpStatus update => handleStatusUpdate update m
  | OpConnection n connected => wsServerConnectionChanged n connected m
  | OpTransport f => transport f m
  end.

Definition run (ops : list (Op P)) (m : PeerManager P) : PeerManager P :=
  fold_left step ops m.

(** A candidate that passes the three checks of [addPeer] that do not
    depend on the registry. *)
Definition admissible (peer : PeerInfo) : bool :=
  negb (nonce peer =? own_nonce ownNode)%string
  && (JS.indexOf (nonce peer) "monitoring" =? -1)
  && satisfies (version peer) (minVersion config).

End Run.

(** ** Predicates used in the statements *)

(** [pat] occurs in [s]. *)
Definition contains (s pat : string) : Prop :=
  exists pre post, s = (pre ++ pat ++ post)%string.

Section Predicates.
Context {P : Type} `{PC : PeerConnection P}.

(** No key of the registry is the own nonce or carries the marker. *)
Definition registry_clean (ownNode : OwnNodeOptions) (m : PeerManager P) : Prop :=
  Forall (fun k => k <> own_nonce ownNode /\ ~ contains k "monitoring")
         (JSMap.keys (_peers m)).

(** Every record is stored under the nonce of its [options]. *)
Definition keyed_by_nonce (m : PeerManager P) : Prop :=
  Forall (fun e => opt_nonce (peer_options (snd e)) = fst e) (_peers m).

(** The transport changed the records of [m] into those of [m'] without
    touching the keys or the records' [options]. *)
Definition same_identities (m m' : PeerManager P) : Prop :=
  map (fun e => (fst e, peer_options (snd e))) (_peers m)
  = map (fun e => (fst e, peer_options (snd e))) (_peers m').

(** Heights are block counts: no status carries a negative one. *)
Definition heights_nonneg (l : list P) : Prop :=
  Forall (fun peer => 0 <= height_or_0 peer) l.

Definition httpActiveCount (l : list P) : nat :=
  List.length (filter peer_httpActive l).

(** The returned record is the first of the HTTP-active records of maximal
    height in [shuffled]: every active record before it is strictly
    lower. *)
Definition first_max (shuffled : list P) (p : P) : Prop :=
  exists l1 l2, shuffled = l1 ++ p :: l2 /\ peer_httpActive p = true
    /\ Forall (fun q => peer_httpActive q = true -> height_or_0 q < height_or_0 p) l1
    /\ Forall (fun q => peer_httpActive q = true -> height_or_0 q <= height_or_0 p) l2.

(** The returned record is the last of the HTTP-active records of maximal
    height in [shuffled]: every active record after it is strictly
    lower. *)
Definition last_max (shuffled : list P) (p : P) : Prop :=
  exists l1 l2, shuffled = l1 ++ p :: l2 /\ peer_httpActive p = true
    /\ Forall (fun q => peer_httpActive q = true -> height_or_0 q <= height_or_0 p) l1
    /\ Forall (fun q => peer_httpActive q = true -> height_or_0 q < height_or_0 p) l2.

End Predicates.

(** The candidates of nonce [n] in a list, and the first of them. *)
Definition with_nonce (n : string) (l : list PeerInfo) : list PeerInfo :=
  filter (fun c => (nonce c =? n)%string) l.

Definition first_with_nonce (n : string) (l : list PeerInfo) : option PeerInfo :=
  find (fun c => (nonce c =? n)%string) l.

(** Candidates that carry the same nonce declare the same version. *)
Definition nonce_determines_version (l : list PeerInfo) : Prop :=
  forall x y, In x l -> In y l -> nonce x = nonce y -> version x = version y.

(** ** A concrete peer object, for running the manager on examples *)

(** Modelled from the spec: the libargus [Peer] class is not part of this
    repository.  A record has no status until a first status update arrives,
    and [handleStatusUpdate] is the writer of the status; a new object knows
    no further peers, is offline and not HTTP-active. *)
Record SimplePeer := mkSimplePeer {
  sp_options : PeerOptions;
  sp_status : option NodeStatus;
  sp_peers : list (option PeerInfo);
  sp_httpActive : bool;
  sp_state : PeerState;
  sp_wsServerConnected : bool
}.

Definition sp_new (o : PeerOptions) (own : OwnNodeOptions) : SimplePeer :=
  {| sp_options := o; sp_status := None; sp_peers := []; sp_httpActive := false;
     sp_state := Offline; sp_wsServerConnected := false |}.

Definition sp_handleStatusUpdate (u : StatusUpdate) (p : SimplePeer) : SimplePeer :=
  {| sp_options := sp_options p;
     sp_status := Some {| height := update_height u; broadhash := update_broadhash u |};
     sp_peers := sp_peers p; sp_httpActive := sp_httpActive p;
     sp_state := sp_state p; sp_wsServerConnected := sp_wsServerConnected p |}.

Definition sp_setWebsocketServerConnected (b : bool) (p : SimplePeer) : SimplePeer :=
  {| sp_options := sp_options p; sp_status := sp_status p; sp_peers := sp_peers p;
     sp_httpActive := sp_httpActive p; sp_state := sp_state p;
     sp_wsServerConnected := b |}.

#[export] Instance SimplePeer_connection : PeerConnection SimplePeer := {|
  peer_new := sp_new;
  peer_options := sp_options;
  peer_status := sp_status;
  peer_peers := sp_peers;
  peer_httpActive := sp_httpActive;
  peer_state := sp_state;
  peer_handleStatusUpdate := sp_handleStatusUpdate;
  peer_setWebsocketServerConnected := sp_setWebsocketServerConnected;
  peer_new_options := fun o own => eq_refl
|}.

(** Sample data for the examples. *)
Module Sample.

(** A version policy for the examples: the range names the one accepted
    version. *)
Definition satisfies (v range : string) : bool := (v =? range)%string.

Definition config : Config :=
  {| seedNode := {| seed_host := "10.0.0.1"; seed_wsPort := 5001;
                    seed_httpPort := 5000; seed_version := "1.0.0" |};
     minVersion := "1.0.0"; nethash := "net" |}.

Definition ownNode : OwnNodeOptions := {| own_nonce := "own"; own_nethash := "net" |}.

Definition info (n v : string) : PeerInfo :=
  {| ip := "10.0.0.2"; wsPort := 5001; httpPort := 5000; version := v; nonce := n |}.

Definition options (n : string) : PeerOptions :=
  {| opt_ip := "10.0.0.2"; opt_wsPort := 5001; opt_httpPort := 5000;
     opt_nethash := "net"; opt_nonce := n |}.

(** A record with the given nonce, status height, HTTP flag and peer list. *)
Definition record (n : string) (h : option Z) (http : bool)
    (l : list (option PeerInfo)) : SimplePeer :=
  {| sp_options := options n;
     sp_status := match h with
                  | Some z => Some {| height := z; broadhash := "h" |}
                  | None => None
                  end;
     sp_peers := l; sp_httpActive := http; sp_state := Online;
     sp_wsServerConnected := false |}.

Definition manager (l : JSMap.t SimplePeer) : PeerManager SimplePeer :=
  mkManager l 0 "".

Definition addPeer := addPeer (P := SimplePeer) satisfies config ownNode.
Definition updatePeers := updatePeers (P := SimplePeer) satisfies config ownNode.
Definition start : PeerManager SimplePeer := constructor satisfies config ownNode.

(** Two HTTP-active records of equal height. *)
Definition tieA : SimplePeer := record "a" (Some 5) true [].
Definition tieB : SimplePeer := record "b" (Some 5) true [].
Definition tied : PeerManager SimplePeer := manager [("a", tieA); ("b", tieB)].

(** An HTTP-active record that reports a negative height. *)
Definition below : PeerManager SimplePeer :=
  manager [("a", record "a" (Some (-1)) true [])].

(** The manager after the constructor and the admission of a peer "seed". *)
Definition seeded : PeerManager SimplePeer := addPeer (info "seed" "1.0.0") start.
Definition status100 : StatusUpdate := mkUpdate (Some "seed") 100 "h1".

(** Candidates that [addPeer] turns away. *)
Definition ownCandidate : PeerInfo := info "own" "1.0.0".
Definition oldCandidate : PeerInfo := info "old" "0.9.0".

(** A chain A -> B -> C: the record of "a" lists B; once B is registered
    the transport fills its list with C. *)
Definition candB : PeerInfo := info "b" "1.0.0".
Definition candC : PeerInfo := info "c" "1.0.0".
Definition chainA : SimplePeer := record "a" None false [Some candB].
Definition chain0 : PeerManager SimplePeer := manager [("a", chainA)].
Definition refresh (k : string) (p : SimplePeer) : SimplePeer :=
  if (k =? "b")%string
  then {| sp_options := sp_options p; sp_status := sp_status p;
          sp_peers := [Some candC]; sp_httpActive := sp_httpActive p;
          sp_state := sp_state p; sp_wsServerConnected := sp_wsServerConnected p |}
  else p.
Definition chain1 : PeerManager SimplePeer := transport refresh (updatePeers chain0).

(** The record of "a" lists the nonce "b" twice, first with a version that
    is turned away. *)
Definition candBold : PeerInfo := info "b" "0.9.0".
Definition stale0 : PeerManager SimplePeer :=
  manager [("a", record "a" None false [Some candBold; Some candB])].

(** Two registered records that both list the candidate "x". *)
Definition candX : PeerInfo := info "x" "1.0.0".
Definition twoReports : PeerManager SimplePeer :=
  manager [("a1", record "a1" None false [Some candX]);
           ("a2", record "a2" None false [None; Some candX])].

(** The same, the candidate declaring a version that is turned away. *)
Definition candOld : PeerInfo := info "x" "0.9.0".
Definition twoOldReports : PeerManager SimplePeer :=
  manager [("a1", record "a1" None false [Some candOld]);
           ("a2", record "a2" None false [Some candOld])].

End Sample.

(** ** Further definitions for the statements *)

Section MorePredicates.
Context {P : Type} `{PC : PeerConnection P}.

(** A change made by the transport that leaves the [options] of every record
    alone. *)
Definition keeps_options (f : string -> P -> P) : Prop :=
  forall k p, peer_options (f k p) = peer_options p.

Definition ops_keep_options (ops : list (Op P)) : Prop :=
  Forall (fun op => match op with
                    | OpTransport f => keeps_options f
                    | _ => True
                    end) ops.

(** The methods of the peer object that the handlers call leave its
    [options] alone. *)
Definition methods_keep_options : Prop :=
  (forall u p, peer_options (peer_handleStatusUpdate u p) = peer_options p)
  /\ (forall b p, peer_options (peer_setWebsocketServerConnected b p) = peer_options p).

End MorePredicates.

(** More sample data. *)
Module Scenario.

(** The record of "a" lists the registered "b" and a candidate that is
    turned away. *)
Definition settled : PeerManager SimplePeer :=
  Sample.manager [("a", Sample.record "a" None false
                          [Some Sample.candB; Some Sample.oldCandidate]);
                  ("b", Sample.record "b" None false [])].

(** A status update for a nonce that is not registered. *)
Definition ghostStatus : StatusUpdate := mkUpdate (Some "ghost") 7 "h".

(** The own node reported first, then twice more after a new candidate. *)
Definition selfReports : PeerManager SimplePeer :=
  Sample.manager [("a", Sample.record "a" None false
                          [Some Sample.ownCandidate; Some Sample.candB;
                           Some Sample.ownCandidate])].

(** Two records with the same greatest height and different broadhashes. *)
Definition tiedStatus : PeerManager SimplePeer :=
  Sample.manager
    [("a", {| sp_options := Sample.options "a";
              sp_status := Some (mkStatus 7 "first"); sp_peers := [];
              sp_httpActive := false; sp_state := Online;
              sp_wsServerConnected := false |});
     ("b", {| sp_options := Sample.options "b";
              sp_status := Some (mkStatus 7 "second"); sp_peers := [];
              sp_httpActive := false; sp_state := Online;
              sp_wsServerConnected := false |})].

(** A chain A -> B -> C in which the record of "a" also reports the nonce
    "c", with a version that is turned away; the transport fills the list of
    "b" with C as in [Sample.chain1]. *)
Definition candCold : PeerInfo := Sample.info "c" "0.9.0".
Definition blockedA : SimplePeer :=
  Sample.record "a" None false [Some Sample.candB; Some candCold].
Definition blocked0 : PeerManager SimplePeer := Sample.manager [("a", blockedA)].
Definition blocked1 : PeerManager SimplePeer :=
  transport Sample.refresh (Sample.updatePeers blocked0).

Definition mixedOps : list (Op SimplePeer) :=
  [OpAddPeer Sample.candB; OpStatus (mkUpdate (Some "b") 12 "hb"); OpTick;
   OpTransport Sample.refresh; OpConnection "b" true; OpTick].

End Scenario.

(** * The RocketChat notification adapter

    A shallow embedding of [src/notifications/rocket/adapter.ts].  The
    adapter keeps the session returned by the login request and a blacklist
    of delegates for which a missed-block notice went out.  A call of
    [request(options)] is recorded as a [Request] appended to the outbox; the
    answers are not read, except the answer to the login, which arrives as an
    event and sets the session.  Numbers are integers.  The enum
    [DelegateStatus] and the function [convertEpochToSeconds] are imported
    from files outside these sources: they are parameters. *)

Module Rocket.

(** The members of [DelegateStatus] the adapter names, with the equality
    test of the enum; enum members are different values. *)
Class DelegateStatusEnum (S : Type) := {
  FORGED_THIS_ROUND : S;
  AWAITING_MISSED_MORE : S;
  MISSED_MORE : S;
  AWAITING_MISSED_LAST : S;
  status_eqb : S -> S -> bool;
  status_eqb_spec : forall a b, reflect (a = b) (status_eqb a b);
  status_distinct :
    NoDup [FORGED_THIS_ROUND; AWAITING_MISSED_MORE; MISSED_MORE; AWAITING_MISSED_LAST]
}.

(** [DelegateDetails] of libargus: the fields the adapter reads. *)
Record DelegateDetails := mkDetails {
  username : string;
  missedBlocks : Z;
  rank : Z
}.

Record Block := mkBlock {
  timestamp : Z
}.

(** [Delegate] of the delegate monitor: [details] and [lastBlock] may be
    missing. *)
Record Delegate (S : Type) := mkDelegate {
  status : S;
  details : option DelegateDetails;
  lastBlock : option Block
}.
Arguments mkDelegate {S} _ _ _.
Arguments status {S} _.
Arguments details {S} _.
Arguments lastBlock {S} _.

(** The read-only constructor parameters; [nameMappings] is an object whose
    own properties map delegate names to display names. *)
Record Adapter := mkAdapter {
  host : string;
  login_username : string;
  password : string;
  defaultChannel : string;
  nameMappings : JSMap.t string;
  network : string
}.

(** [resp.data] of the login: the two fields [sendMessage] reads. *)
Record AuthSession := mkSession {
  userId : string;
  authToken : string
}.

(** The requests the adapter issues, both POST with a JSON body. *)
Inductive Request :=
| LoginRequest (url user pass : string)
| PostMessage (url xUserId xAuthToken channel text : string).

(** The mutable fields, and the requests issued so far. *)
Record State := mkState {
  authSession : option AuthSession;
  notificationBlacklist : JSMap.t bool;
  outbox : list Request
}.

(** [Map.delete]: the entry under the key is removed, the others keep
    their order. *)
Definition delete {V} (m : JSMap.t V) (k : string) : JSMap.t V :=
  filter (fun e => negb (fst e =? k)%string) m.

(** The line break of the message texts. *)
Definition nl : string := String (ascii_of_nat 10) EmptyString.

(** A number, here always an integer, appended to a string. *)
Definition numberToString (z : Z) : string :=
  DecimalString.NilZero.string_of_int (Z.to_int z).

(** [timeSince(date)]; [now] is the value of [new Date().getTime()], in
    milliseconds, [date] is in seconds. *)
Definition timeSince (now date : Z) : string :=
  let seconds := now / 1000 - date in
  let interval := seconds / 31536000 in
  if interval >? 1 then (numberToString interval ++ " years")%string else
  let interval := seconds / 2592000 in
  if interval >? 1 then (numberToString interval ++ " months")%string else
  let interval := seconds / 86400 in
  if interval >? 1 then (numberToString interval ++ " days")%string else
  let interval := seconds / 3600 in
  if interval >? 1 then (numberToString interval ++ " hours")%string else
  let interval := seconds / 60 in
  if interval >? 1 then (numberToString interval ++ " minutes")%string else
  (numberToString seconds ++ " seconds")%string.

(** The units of [timeSince] with their length in seconds. *)
Definition units : list (string * Z) :=
  [(" years", 31536000); (" months", 2592000); (" days", 86400);
   (" hours", 3600); (" minutes", 60); (" seconds", 1)].

Definition hasNameMapping (a : Adapter) (name : string) : bool :=
  JSMap.has (nameMappings a) name.

Definition replaceDelegateName (a : Adapter) (name : string) : string :=
  if hasNameMapping a name
  then match JSMap.get (nameMappings a) name with Some v => v | None => name end
  else name.

(** The constructor calls [authenticate], which posts the login. *)
Definition authenticate (a : Adapter) (s : State) : State :=
  {| authSession := authSession s;
     notificationBlacklist := notificationBlacklist s;
     outbox := outbox s
               ++ [LoginRequest (host a ++ "/api/v1/login")%string
                                (login_username a) (password a)] |}.

Definition constructor (a : Adapter) : State :=
  authenticate a {| authSession := None; notificationBlacklist := JSMap.empty bool;
                    outbox := [] |}.

(** The login answered: [this.authSession = resp.data]. *)
Definition loginResponded (data : option AuthSession) (s : State) : State :=
  {| authSession := data; notificationBlacklist := notificationBlacklist s;
     outbox := outbox s |}.

(** [sendMessage] reads [this.authSession.userId]: without a session this is
    a [TypeError], raised before the request is issued. *)
Definition sendMessage (a : Adapter) (channel message : string) (s : State)
    : JS.result State :=
  match authSession s with
  | None => JS.Throw "TypeError"
  | Some session =>
      JS.Return
        {| authSession := authSession s;
           notificationBlacklist := notificationBlacklist s;
           outbox := outbox s
                     ++ [PostMessage (host a ++ "/api/v1/chat.postMessage")%string
                                     (userId session) (authToken session)
                                     channel message] |}
  end.

Definition with_blacklist (s : State) (b : JSMap.t bool) : State :=
  {| authSession := authSession s; notificationBlacklist := b; outbox := outbox s |}.

Section Handlers.
Context {S : Type} `{E : DelegateStatusEnum S}.
Variable convertEpochToSeconds : Z -> Z.
Variable a : Adapter.

Definition missedBlockText (now : Z) (delegate : Delegate S) (d : DelegateDetails)
    : string :=
  (":rotating_light: *Missed Block* :rotating_light: " ++ nl ++
   "Delegate: `" ++
   (if hasNameMapping a (username d)
    then username d ++ "` / " ++ replaceDelegateName a (username d)
    else username d ++ "`") ++
   " || " ++
   "Number of missed blocks: `" ++
   numberToString (missedBlocks d + 1) ++
   "` || " ++
   "Last block: `" ++
   (match lastBlock delegate with
    | Some b => timeSince now (convertEpochToSeconds (timestamp b)) ++ " ago"
    | None => "never"
    end) ++
   "`" ++ nl ++
   "Network: `" ++
   network a ++
   "`")%string.

Definition handleMissedBlock (now : Z) (delegate : Delegate S) (s : State)
    : JS.result State :=
  if status_eqb (status delegate) AWAITING_MISSED_MORE
     || status_eqb (status delegate) MISSED_MORE
  then JS.Return s
  else match details delegate with
       | None => JS.Return s
       | Some d =>
           if JSMap.has (notificationBlacklist s) (username d) then JS.Return s
           else match sendMessage a (defaultChannel a)
                        (missedBlockText now delegate d) s with
                | JS.Throw e => JS.Throw e
                | JS.Return s' =>
                    JS.Return (with_blacklist s'
                                 (JSMap.set (notificationBlacklist s') (username d) true))
                end
       end.

Definition droppedTopText (delegate : DelegateDetails) : string :=
  (":wave_tone2: *Bye Bye* :wave_tone2: " ++ nl ++
   "Delegate `" ++
   (if hasNameMapping a (username delegate)
    then username delegate ++ "` / " ++ replaceDelegateName a (username delegate)
    else username delegate ++ "`") ++
   " just lost his forging position || " ++
   "Rank: `" ++
   numberToString (rank delegate) ++
   "`" ++ nl ++
   "Network: `" ++
   network a ++
   "`")%string.

Definition handleDelegateDroppedTop (delegate : DelegateDetails) (s : State)
    : JS.result State :=
  sendMessage a (defaultChannel a) (droppedTopText delegate) s.

Definition newTopText (delegate : DelegateDetails) : string :=
  (":minions_hands: *Congratulations* :minions_hands:  " ++ nl ++
   "Delegate `" ++
   (if hasNameMapping a (username delegate)
    then username delegate ++ "` / " ++ replaceDelegateName a (username delegate)
    else username delegate ++ "`") ++
   " was elevated into a forging position || " ++
   "Rank: `" ++
   numberToString (rank delegate) ++
   "`" ++ nl ++
   "Network: `" ++
   network a ++
   "`")%string.

Definition handleDelegateNewTop (delegate : DelegateDetails) (s : State)
    : JS.result State :=
  sendMessage a (defaultChannel a) (newTopText delegate) s.

Definition handleDelegateRankChanged (delegate : DelegateDetails) (delta : Z)
    (s : State) : JS.result State :=
  JS.Return s.

Definition resumedText (d : DelegateDetails) : string :=
  (":green_heart: *Forging resumed* :green_heart: " ++ nl ++
   "Delegate `" ++
   (if hasNameMapping a (username d)
    then username d ++ "` / " ++ replaceDelegateName a (username d)
    else username d ++ "`") ++
   " is now forging again " ++ nl ++
   "Network: `" ++
   network a ++
   "`")%string.

Definition stoppedText (d : DelegateDetails) : string :=
  (":red_circle: *Forging stopped* :red_circle: " ++ nl ++
   "Delegate `" ++
   (if hasNameMapping a (username d)
    then username d ++ "` / " ++ replaceDelegateName a (username d)
    else username d ++ "`") ++
   " has missed more than 1 block and is :red_circle: now " ++ nl ++
   "Network: `" ++
   network a ++
   "`")%string.

Definition handleDelegateStatusChanged (delegate : Delegate S)
    (oldStatus newStatus : S) (s : State) : JS.result State :=
  match details delegate with
  | None => JS.Return s
  | Some d =>
      if status_eqb newStatus FORGED_THIS_ROUND
         && status_eqb oldStatus AWAITING_MISSED_MORE
      then match sendMessage a (defaultChannel a) (resumedText d) s with
           | JS.Throw e => JS.Throw e
           | JS.Return s' =>
               JS.Return (with_blacklist s'
                            (delete (notificationBlacklist s') (username d)))
           end
      else if status_eqb newStatus MISSED_MORE
              && status_eqb oldStatus AWAITING_MISSED_LAST
      then sendMessage a (defaultChannel a) (stoppedText d) s
      else JS.Return s
  end.

(** What reaches the adapter: the calls of the notification manager and the
    answer to the login. *)
Inductive Event :=
| MissedBlock (now : Z) (delegate : Delegate S)
| DroppedTop (delegate : DelegateDetails)
| NewTop (delegate : DelegateDetails)
| RankChanged (delegate : DelegateDetails) (delta : Z)
| StatusChanged (delegate : Delegate S) (oldStatus newStatus : S)
| LoginResponse (data : option AuthSession).

Definition deliver (ev : Event) (s : State) : JS.result State :=
  match ev with
  | MissedBlock now delegate => handleMissedBlock now delegate s
  | DroppedTop delegate => handleDelegateDroppedTop delegate s
  | NewTop delegate => handleDelegateNewTop delegate s
  | RankChanged delegate delta => handleDelegateRankChanged delegate delta s
  | StatusChanged delegate oldStatus newStatus =>
      handleDelegateStatusChanged delegate oldStatus newStatus s
  | LoginResponse data => JS.Return (loginResponded data s)
  end.

(** A handler that throws has written nothing before: the adapter is then
    in the state it was in. *)
Definition after (s : State) (ev : Event) : State :=
  match deliver ev s with
  | JS.Throw _ => s
  | JS.Return s' => s'
  end.

Definition run (evs : list Event) (s : State) : State := fold_left after evs s.

(** The event reports that the delegate named [u] forges again. *)
Definition resumes (u : string) (ev : Event) : Prop :=
  match ev with
  | StatusChanged delegate oldStatus newStatus =>
      newStatus = FORGED_THIS_ROUND /\ oldStatus = AWAITING_MISSED_MORE
      /\ exists d, details delegate = Some d /\ username d = u
  | _ => False
  end.

(** The event reports a missed block of the delegate named [u]. *)
Definition misses (u : string) (ev : Event) : Prop :=
  match ev with
  | MissedBlock _ delegate => exists d, details delegate = Some d /\ username d = u
  | _ => False
  end.

(** The event is one the adapter answers with a message, in state [s]. *)
Definition notifies (s : State) (ev : Event) : Prop :=
  match ev with
  | MissedBlock _ delegate =>
      status delegate <> AWAITING_MISSED_MORE /\ status delegate <> MISSED_MORE
      /\ exists d, details delegate = Some d
                   /\ JSMap.has (notificationBlacklist s) (username d) = false
  | DroppedTop _ | NewTop _ => True
  | RankChanged _ _ => False
  | StatusChanged delegate oldStatus newStatus =>
      details delegate <> None
      /\ ((newStatus = FORGED_THIS_ROUND /\ oldStatus = AWAITING_MISSED_MORE)
          \/ (newStatus = MISSED_MORE /\ oldStatus = AWAITING_MISSED_LAST))
  | LoginResponse _ => False
  end.

End Handlers.

(** Sample data. *)
Inductive SampleStatus :=
| S_FORGED_THIS_ROUND | S_AWAITING_MISSED_MORE | S_MISSED_MORE
| S_AWAITING_MISSED_LAST | S_MISSED_LAST.

Definition sample_eqb (x y : SampleStatus) : bool :=
  match x, y with
  | S_FORGED_THIS_ROUND, S_FORGED_THIS_ROUND
  | S_AWAITING_MISSED_MORE, S_AWAITING_MISSED_MORE
  | S_MISSED_MORE, S_MISSED_MORE
  | S_AWAITING_MISSED_LAST, S_AWAITING_MISSED_LAST
  | S_MISSED_LAST, S_MISSED_LAST => true
  | _, _ => false
  end.

Definition sample_eqb_spec (x y : SampleStatus) : reflect (x = y) (sample_eqb x y).
Proof.
  destruct x, y; simpl; constructor; congruence.
Defined.

Definition sample_distinct :
  NoDup [S_FORGED_THIS_ROUND; S_AWAITING_MISSED_MORE; S_MISSED_MORE;
         S_AWAITING_MISSED_LAST].
Proof.
  repeat constructor; simpl; intuition discriminate.
Defined.

#[export] Instance SampleStatus_enum : DelegateStatusEnum SampleStatus := {|
  FORGED_THIS_ROUND := S_FORGED_THIS_ROUND;
  AWAITING_MISSED_MORE := S_AWAITING_MISSED_MORE;
  MISSED_MORE := S_MISSED_MORE;
  AWAITING_MISSED_LAST := S_AWAITING_MISSED_LAST;
  status_eqb := sample_eqb;
  status_eqb_spec := sample_eqb_spec;
  status_distinct := sample_distinct
|}.

Definition sampleAdapter : Adapter :=
  {| host := "https://chat"; login_username := "bot"; password := "secret";
     defaultChannel := "#delegates"; nameMappings := [("alice", "@alice")];
     network := "testnet" |}.

Definition sampleSession : AuthSession := {| userId := "u1"; authToken := "t1" |}.

(** Lisk timestamps count seconds from the Lisk epoch. *)
Definition sampleEpoch (t : Z) : Z := 1464109200 + t.

Definition alice : DelegateDetails :=
  {| username := "alice"; missedBlocks := 3; rank := 12 |}.

Definition aliceMissed : Delegate SampleStatus :=
  {| status := S_MISSED_LAST; details := Some alice;
     lastBlock := Some {| timestamp := 1000 |} |}.

(** The adapter once the login was answered. *)
Definition loggedIn : State := loginResponded (Some sampleSession) (constructor sampleAdapter).

End Rocket.

(** * Properties *)

(** ** Strings: [indexOf] against [contains] *)

Lemma substring_occurrence (pre pat post : string) :
  substring (String.length pre) (String.length pat) (pre ++ pat ++ post)%string = pat.
Proof.
  induction pre as [|c pre IH]; simpl.
  - induction pat as [|c pat IH]; simpl.
    + now destruct post.
    + now rewrite IH.
  - exact IH.
Qed.

Lemma occurrence_of_substring (pat : string) :
  forall (n : nat) (s : string),
    substring n (String.length pat) s = pat -> contains s pat.
Proof.
  intros n s; revert n.
  induction s as [|c s IH]; intros n Hs.
  - exists "", "". destruct n; destruct pat; simpl in Hs; try discriminate; reflexivity.
  - destruct n as [|n].
    + exists "". simpl.
      clear IH. revert c s Hs.
      induction pat as [|a pat IHp]; intros c s Hs.
      * now exists (String c s).
      * simpl in Hs. injection Hs as Hc Hs'. subst a.
        destruct s as [|c' s].
        -- destruct pat; simpl in Hs'; try discriminate. now exists "".
        -- destruct (IHp c' s Hs') as [post Hpost].
           exists post. simpl. now rewrite Hpost.
    + simpl in Hs. destruct (IH n Hs) as (pre & post & ->).
      now exists (String c pre), post.
Qed.

Lemma indexOf_contains (s pat : string) :
  pat <> "" -> (JS.indexOf s pat = -1 <-> ~ contains s pat).
Proof.
  intros Hpat. unfold JS.indexOf.
  destruct (String.index 0 pat s) as [n|] eqn:Hi; split.
  - lia.
  - intros Hc. exfalso. apply Hc.
    apply occurrence_of_substring with (n := n). now apply index_correct1 with (n := 0%nat).
  - intros _ (pre & post & ->).
    apply (index_correct3 0 (String.length pre) pat _ Hi Hpat (Nat.le_0_l _)).
    apply substring_occurrence.
  - reflexivity.
Qed.

Lemma marker_test (s : string) :
  (JS.indexOf s "monitoring" =? -1) = true <-> ~ contains s "monitoring".
Proof.
  rewrite Z.eqb_eq. apply indexOf_contains. discriminate.
Qed.

(** ** The map *)

Module JSMapFacts.
Section Facts.
Variable V : Type.
Implicit Types (m : JSMap.t V) (k : string) (v : V).

Lemma has_get m k : JSMap.has m k = true <-> exists v, JSMap.get m k = Some v.
Proof.
  unfold JSMap.has. destruct (JSMap.get m k); split; eauto; try discriminate.
  intros [v Hv]; discriminate.
Qed.

Lemma has_false_get m k : JSMap.has m k = false <-> JSMap.get m k = None.
Proof. unfold JSMap.has. destruct (JSMap.get m k); split; congruence. Qed.

Lemma get_none_keys m k : JSMap.get m k = None <-> ~ In k (JSMap.keys m).
Proof.
  induction m as [|[k' v'] m IH]; simpl.
  - tauto.
  - destruct (String.eqb_spec k' k) as [->|Hne].
    + split; [discriminate | intros H; exfalso; apply H; now left].
    + rewrite IH. tauto.
Qed.

Lemma has_keys m k : JSMap.has m k = true <-> In k (JSMap.keys m).
Proof.
  destruct (JSMap.has m k) eqn:Hh.
  - split; [intros _ | reflexivity].
    destruct (in_dec string_dec k (JSMap.keys m)) as [Hin|Hnin]; [assumption|].
    apply get_none_keys, has_false_get in Hnin. congruence.
  - split; [discriminate|]. intros Hin.
    apply has_false_get, get_none_keys in Hh. contradiction.
Qed.

(** [set] on an absent key appends the entry. *)
Lemma set_absent m k v : JSMap.get m k = None -> JSMap.set m k v = m ++ [(k, v)].
Proof.
  induction m as [|[k' v'] m IH]; simpl; [reflexivity|].
  destruct (k' =? k)%string; [discriminate|]. intros H. now rewrite IH.
Qed.

(** [set] on a present key keeps the keys and their order. *)
Lemma set_keys_present m k v :
  JSMap.has m k = true -> JSMap.keys (JSMap.set m k v) = JSMap.keys m.
Proof.
  unfold JSMap.has.
  induction m as [|[k' v'] m IH]; simpl; [discriminate|].
  destruct (k' =? k)%string; simpl; [reflexivity|].
  intros H. now rewrite IH.
Qed.

Lemma get_app m m' k :
  JSMap.get (m ++ m') k
  = match JSMap.get m k with Some v => Some v | None => JSMap.get m' k end.
Proof.
  induction m as [|[k' v'] m IH]; simpl; [reflexivity|].
  now destruct (k' =? k)%string.
Qed.

Lemma count_app m m' k :
  JSMap.count (m ++ m') k = (JSMap.count m k + JSMap.count m' k)%nat.
Proof. unfold JSMap.count. now rewrite filter_app, length_app. Qed.

Lemma count_zero m k : JSMap.count m k = 0%nat <-> JSMap.get m k = None.
Proof.
  unfold JSMap.count.
  induction m as [|[k' v'] m IH]; simpl; [tauto|].
  destruct (k' =? k)%string; simpl; [split; discriminate | exact IH].
Qed.

End Facts.
End JSMapFacts.

(** ** [addPeer] *)

Section AddPeerFacts.
Context {P : Type} `{PC : PeerConnection P}.
Variable satisfies : string -> string -> bool.
Variable config : Config.
Variable ownNode : OwnNodeOptions.

Local Abbreviation AddPeer := (addPeer satisfies config ownNode).
Local Abbreviation Admissible := (admissible satisfies config ownNode).
Local Abbreviation NewPeer := (new_peer_of config ownNode).

Implicit Types (m : PeerManager P) (peer : PeerInfo).

Lemma addPeer_rejected peer m : Admissible peer = false -> AddPeer peer m = m.
Proof.
  unfold admissible, addPeer. intros H.
  destruct (nonce peer =? own_nonce ownNode)%string; simpl in *; [reflexivity|].
  destruct (JS.indexOf (nonce peer) "monitoring" =? -1); simpl in *; [|reflexivity].
  rewrite H. simpl. now destruct (JSMap.has _ _).
Qed.

Lemma addPeer_present peer m :
  JSMap.has (_peers m) (nonce peer) = true -> AddPeer peer m = m.
Proof.
  unfold addPeer. intros ->.
  now destruct (_ || _).
Qed.

Lemma addPeer_admitted peer m :
  Admissible peer = true -> JSMap.has (_peers m) (nonce peer) = false ->
  AddPeer peer m = with_peers m (_peers m ++ [(nonce peer, NewPeer peer)]).
Proof.
  unfold admissible, addPeer. intros H Hh.
  apply andb_prop in H as [H H3]. apply andb_prop in H as [H1 H2].
  apply negb_true_iff in H1. rewrite H1, H2, Hh, H3. simpl.
  f_equal. apply JSMapFacts.set_absent. now apply JSMapFacts.has_false_get.
Qed.

(** The three outcomes of a call. *)
Lemma addPeer_cases peer m :
  (AddPeer peer m = m
   /\ (Admissible peer = false \/ JSMap.has (_peers m) (nonce peer) = true))
  \/ (Admissible peer = true /\ JSMap.has (_peers m) (nonce peer) = false
      /\ AddPeer peer m = with_peers m (_peers m ++ [(nonce peer, NewPeer peer)])).
Proof.
  destruct (Admissible peer) eqn:Ha.
  - destruct (JSMap.has (_peers m) (nonce peer)) eqn:Hh.
    + left. split; [now apply addPeer_present | now right].
    + right. repeat split. now apply addPeer_admitted.
  - left. split; [now apply addPeer_rejected | now left].
Qed.

Lemma admissible_spec peer :
  Admissible peer = true <->
  nonce peer <> own_nonce ownNode /\ ~ contains (nonce peer) "monitoring"
  /\ satisfies (version peer) (minVersion config) = true.
Proof.
  unfold admissible. rewrite !andb_true_iff, negb_true_iff, String.eqb_neq, marker_test.
  tauto.
Qed.

Lemma addPeer_bestHeight peer m : bestHeight (AddPeer peer m) = bestHeight m.
Proof.
  destruct (addPeer_cases peer m) as [[-> _]|(_ & _ & ->)]; reflexivity.
Qed.

Lemma addPeer_bestBroadhash peer m : bestBroadhash (AddPeer peer m) = bestBroadhash m.
Proof.
  destruct (addPeer_cases peer m) as [[-> _]|(_ & _ & ->)]; reflexivity.
Qed.

(** A key that is present stays, with its record. *)
Lemma addPeer_get_preserved peer m k v :
  JSMap.get (_peers m) k = Some v -> JSMap.get (_peers (AddPeer peer m)) k = Some v.
Proof.
  intros Hg.
  destruct (addPeer_cases peer m) as [[-> _]|(_ & _ & ->)]; [assumption|].
  simpl. now rewrite JSMapFacts.get_app, Hg.
Qed.

Lemma addPeer_has_preserved peer m k :
  JSMap.has (_peers m) k = true -> JSMap.has (_peers (AddPeer peer m)) k = true.
Proof.
  rewrite !JSMapFacts.has_get. intros [v Hv]. exists v.
  now apply addPeer_get_preserved.
Qed.

(** A call for another nonce does not touch key [k]. *)
Lemma addPeer_get_other peer m k :
  nonce peer <> k -> JSMap.get (_peers (AddPeer peer m)) k = JSMap.get (_peers m) k.
Proof.
  intros Hne.
  destruct (addPeer_cases peer m) as [[-> _]|(_ & _ & ->)]; [reflexivity|].
  simpl. rewrite JSMapFacts.get_app. destruct (JSMap.get (_peers m) k); [reflexivity|].
  simpl. apply String.eqb_neq in Hne. now rewrite Hne.
Qed.

Lemma addPeer_count_other peer m k :
  nonce peer <> k -> JSMap.count (_peers (AddPeer peer m)) k = JSMap.count (_peers m) k.
Proof.
  intros Hne.
  destruct (addPeer_cases peer m) as [[-> _]|(_ & _ & ->)]; [reflexivity|].
  simpl. rewrite JSMapFacts.count_app. unfold JSMap.count at 2. simpl.
  apply String.eqb_neq in Hne. rewrite Hne. simpl. lia.
Qed.

(** No key is ever stored twice. *)
Lemma addPeer_count_le_1 peer m k :
  (JSMap.count (_peers m) k <= 1)%nat -> (JSMap.count (_peers (AddPeer peer m)) k <= 1)%nat.
Proof.
  intros Hc.
  destruct (string_dec (nonce peer) k) as [<-|Hne].
  - destruct (addPeer_cases peer m) as [[-> _]|(_ & Hh & ->)]; [assumption|].
    simpl. rewrite JSMapFacts.count_app.
    apply JSMapFacts.has_false_get, JSMapFacts.count_zero in Hh. rewrite Hh.
    unfold JSMap.count. simpl. rewrite String.eqb_refl. simpl. lia.
  - now rewrite addPeer_count_other.
Qed.

Lemma addPeer_keyed_by_nonce peer m :
  keyed_by_nonce m -> keyed_by_nonce (AddPeer peer m).
Proof.
  intros Hk.
  destruct (addPeer_cases peer m) as [[-> _]|(_ & _ & ->)]; [assumption|].
  unfold keyed_by_nonce. simpl. apply Forall_app. split; [assumption|].
  constructor; [|constructor]. simpl. unfold new_peer_of.
  now rewrite peer_new_options.
Qed.

Lemma addPeer_registry_clean peer m :
  registry_clean ownNode m -> registry_clean ownNode (AddPeer peer m).
Proof.
  intros Hc.
  destruct (addPeer_cases peer m) as [[-> _]|(Ha & _ & ->)]; [assumption|].
  unfold registry_clean, JSMap.keys. simpl. rewrite map_app. apply Forall_app.
  split; [assumption|]. constructor; [|constructor]. simpl.
  apply admissible_spec in Ha. tauto.
Qed.

End AddPeerFacts.

(** ** The discovery tick and the event handlers *)

Section TickFacts.
Context {P : Type} `{PC : PeerConnection P}.
Variable satisfies : string -> string -> bool.
Variable config : Config.
Variable ownNode : OwnNodeOptions.

Local Abbreviation AddPeer := (addPeer satisfies config ownNode).
Local Abbreviation UpdatePeers := (updatePeers satisfies config ownNode).
Local Abbreviation Constructor := (constructor satisfies config ownNode).
Local Abbreviation Run := (run satisfies config ownNode).
Local Abbreviation Step := (step satisfies config ownNode).

Implicit Types (m : PeerManager P) (peer : PeerInfo).

(** A property kept by every [addPeer] is kept by the loop over
    [newPeers]. *)
Lemma addPeers_preserve (Q : PeerManager P -> Prop) :
  (forall peer m, Q m -> Q (AddPeer peer m)) ->
  forall l m, Q m -> Q (fold_left (fun acc peer => AddPeer peer acc) l m).
Proof.
  intros HQ l. induction l as [|peer l IH]; simpl; intros m Hm; [assumption|].
  apply IH, HQ, Hm.
Qed.

(** The loop over the statuses. *)
Lemma best_step_le acc (p : P) : fst acc <= fst (best_step acc p).
Proof.
  unfold best_step. destruct (peer_status p) as [st|]; [|lia].
  destruct (height st >? fst acc) eqn:Hgt; simpl; [|lia].
  apply Z.gtb_lt in Hgt. lia.
Qed.

Lemma best_fold_le (l : list P) : forall acc, fst acc <= fst (fold_left best_step l acc).
Proof.
  induction l as [|p l IH]; simpl; intros acc; [lia|].
  specialize (IH (best_step acc p)). pose proof (best_step_le acc p). lia.
Qed.

Lemma best_fold_covers (l : list P) : forall acc,
  Forall (fun p => match peer_status p with
                   | Some st => height st <= fst (fold_left best_step l acc)
                   | None => True
                   end) l.
Proof.
  induction l as [|p l IH]; simpl; intros acc; constructor.
  - pose proof (best_fold_le l (best_step acc p)) as Hle.
    destruct (peer_status p) as [st|] eqn:Hst; [|exact I].
    enough (height st <= fst (best_step acc p)) by lia.
    unfold best_step. rewrite Hst.
    destruct (height st >? fst acc) eqn:Hgt; simpl; [lia|].
    rewrite Z.gtb_ltb in Hgt. apply Z.ltb_ge in Hgt. lia.
  - apply IH.
Qed.

Lemma updatePeers_bestHeight m :
  bestHeight (UpdatePeers m)
  = fst (fold_left best_step (peers m) (bestHeight m, bestBroadhash m)).
Proof.
  unfold updatePeers.
  apply (addPeers_preserve
           (fun m' => bestHeight m' = fst (fold_left best_step (peers m)
                                                     (bestHeight m, bestBroadhash m)))).
  - intros peer m' Hm'. now rewrite addPeer_bestHeight.
  - reflexivity.
Qed.

Lemma updatePeers_bestHeight_le m : bestHeight m <= bestHeight (UpdatePeers m).
Proof.
  rewrite updatePeers_bestHeight.
  apply (best_fold_le (peers m) (bestHeight m, bestBroadhash m)).
Qed.

(** The handlers replace the record under a present key. *)
Lemma set_present_keys (ps : JSMap.t P) k v v' :
  JSMap.get ps k = Some v -> JSMap.keys (JSMap.set ps k v') = JSMap.keys ps.
Proof.
  intros Hg. apply JSMapFacts.set_keys_present. apply JSMapFacts.has_get. eauto.
Qed.

Lemma handleStatusUpdate_keys update m :
  JSMap.keys (_peers (handleStatusUpdate update m)) = JSMap.keys (_peers m).
Proof.
  unfold handleStatusUpdate, handleStatusUpdate_target.
  destruct (negb _); [reflexivity|].
  destruct (update_nonce update) as [n|]; [|reflexivity].
  destruct (JSMap.get (_peers m) n) eqn:Hg; [|reflexivity].
  simpl. eapply set_present_keys, Hg.
Qed.

Lemma wsServerConnectionChanged_keys n connected m :
  JSMap.keys (_peers (wsServerConnectionChanged n connected m)) = JSMap.keys (_peers m).
Proof.
  unfold wsServerConnectionChanged.
  destruct (negb _); [reflexivity|].
  destruct (JSMap.get (_peers m) n) eqn:Hg; [|reflexivity].
  simpl. eapply set_present_keys, Hg.
Qed.

Lemma transport_keys f m : JSMap.keys (_peers (transport f m)) = JSMap.keys (_peers m).
Proof.
  unfold transport, JSMap.keys. simpl. rewrite map_map. reflexivity.
Qed.

Lemma handleStatusUpdate_bestHeight update m :
  bestHeight (handleStatusUpdate update m) = bestHeight m.
Proof.
  unfold handleStatusUpdate.
  now destruct (handleStatusUpdate_target update m) as [[n p]|].
Qed.

Lemma handleStatusUpdate_bestBroadhash update m :
  bestBroadhash (handleStatusUpdate update m) = bestBroadhash m.
Proof.
  unfold handleStatusUpdate.
  now destruct (handleStatusUpdate_target update m) as [[n p]|].
Qed.

Lemma wsServerConnectionChanged_bestHeight n connected m :
  bestHeight (wsServerConnectionChanged n connected m) = bestHeight m.
Proof.
  unfold wsServerConnectionChanged.
  destruct (negb _); [reflexivity|].
  now destruct (JSMap.get (_peers m) n).
Qed.

Lemma step_bestHeight_le m op : bestHeight m <= bestHeight (Step m op).
Proof.
  destruct op; simpl.
  - rewrite addPeer_bestHeight. lia.
  - apply updatePeers_bestHeight_le.
  - rewrite handleStatusUpdate_bestHeight. lia.
  - rewrite wsServerConnectionChanged_bestHeight. lia.
  - lia.
Qed.

Lemma run_bestHeight_le ops : forall m, bestHeight m <= bestHeight (Run ops m).
Proof.
  induction ops as [|op ops IH]; simpl; intros m; [lia|].
  etransitivity; [apply (step_bestHeight_le m op) | apply IH].
Qed.

Lemma updatePeers_registry_clean m :
  registry_clean ownNode m -> registry_clean ownNode (UpdatePeers m).
Proof.
  intros Hc. unfold updatePeers.
  apply addPeers_preserve; [apply addPeer_registry_clean | exact Hc].
Qed.

Lemma step_registry_clean m op :
  registry_clean ownNode m -> registry_clean ownNode (Step m op).
Proof.
  unfold registry_clean. destruct op; cbn [step]; intros Hc.
  - now apply addPeer_registry_clean.
  - now apply updatePeers_registry_clean.
  - now rewrite handleStatusUpdate_keys.
  - now rewrite wsServerConnectionChanged_keys.
  - now rewrite transport_keys.
Qed.

Lemma run_registry_clean ops :
  forall m, registry_clean ownNode m -> registry_clean ownNode (Run ops m).
Proof.
  induction ops as [|op ops IH]; simpl; intros m Hc; [assumption|].
  apply IH, step_registry_clean, Hc.
Qed.

Lemma constructor_registry_clean : registry_clean ownNode Constructor.
Proof.
  unfold constructor. apply addPeer_registry_clean. constructor.
Qed.

End TickFacts.

(** ** The scan of [getBestHTTPPeer] *)

Section ScanFacts.
Context {P : Type} `{PC : PeerConnection P}.

Lemma scan_step_inactive acc (p : P) :
  peer_httpActive p = false -> scan_step acc p = acc.
Proof. unfold scan_step. now intros ->. Qed.

Lemma scan_step_keep acc (p : P) :
  peer_httpActive p = true -> (height_or_0 p >=? snd acc) = true ->
  scan_step acc p = (Some p, height_or_0 p).
Proof. unfold scan_step. now intros -> ->. Qed.

Lemma scan_step_skip acc (p : P) :
  peer_httpActive p = true -> (height_or_0 p >=? snd acc) = false ->
  scan_step acc p = acc.
Proof. unfold scan_step. now intros -> ->. Qed.

(** Either no record was kept and every HTTP-active record is below the
    starting height, or the kept record is the last HTTP-active one that
    reached the running maximum. *)
Lemma scan_fold_spec (l : list P) : forall acc,
  (fold_left scan_step l acc = acc
   /\ Forall (fun q => peer_httpActive q = true -> height_or_0 q < snd acc) l)
  \/ (exists l1 p l2,
        l = l1 ++ p :: l2
        /\ fold_left scan_step l acc = (Some p, height_or_0 p)
        /\ peer_httpActive p = true /\ snd acc <= height_or_0 p
        /\ Forall (fun q => peer_httpActive q = true -> height_or_0 q <= height_or_0 p) l1
        /\ Forall (fun q => peer_httpActive q = true -> height_or_0 q < height_or_0 p) l2).
Proof.
  induction l as [|x l IH] using rev_ind; intros acc.
  - left. split; [reflexivity | constructor].
  - rewrite fold_left_app. simpl.
    destruct (peer_httpActive x) eqn:Hx.
    + destruct (height_or_0 x >=? snd (fold_left scan_step l acc)) eqn:Hge.
      * rewrite (scan_step_keep _ _ Hx Hge).
        right. exists l, x, []. apply Z.geb_le in Hge.
        destruct (IH acc) as [[Hr Hall]|(l1 & p & l2 & Hl & Hr & Hp & Hacc & H1 & H2)].
        -- rewrite Hr in Hge. repeat split; auto.
           eapply Forall_impl; [|exact Hall]. simpl. intros q Hq Ha.
           specialize (Hq Ha). lia.
        -- rewrite Hr in Hge. simpl in Hge. repeat split; auto; [lia|].
           subst l. apply Forall_app. split.
           ++ eapply Forall_impl; [|exact H1]. simpl. intros q Hq Ha.
              specialize (Hq Ha). lia.
           ++ constructor; [intros _; lia|].
              eapply Forall_impl; [|exact H2]. simpl. intros q Hq Ha.
              specialize (Hq Ha). lia.
      * rewrite (scan_step_skip _ _ Hx Hge).
        rewrite Z.geb_leb in Hge. apply Z.leb_gt in Hge.
        destruct (IH acc) as [[Hr Hall]|(l1 & p & l2 & Hl & Hr & Hp & Hacc & H1 & H2)].
        -- left. rewrite Hr in *. split; [reflexivity|].
           apply Forall_app. split; [assumption|]. constructor; [|constructor].
           intros _. exact Hge.
        -- right. exists l1, p, (l2 ++ [x]). rewrite Hr in *. simpl in Hge.
           repeat split; auto.
           ++ subst l. now rewrite <- app_assoc.
           ++ apply Forall_app. split; [assumption|]. constructor; [|constructor].
              intros _. exact Hge.
    + rewrite scan_step_inactive by assumption.
      destruct (IH acc) as [[Hr Hall]|(l1 & p & l2 & Hl & Hr & Hp & Hacc & H1 & H2)].
      * left. split; [assumption|].
        apply Forall_app. split; [assumption|]. constructor; [|constructor].
        intros Ha. congruence.
      * right. exists l1, p, (l2 ++ [x]). repeat split; auto.
        -- subst l. now rewrite <- app_assoc.
        -- apply Forall_app. split; [assumption|]. constructor; [|constructor].
           intros Ha. congruence.
Qed.

Lemma getBestHTTPPeer_of_return (l : list P) (p : P) :
  getBestHTTPPeer_of l = JS.Return p -> last_max l p.
Proof.
  unfold getBestHTTPPeer_of, scan.
  destruct (scan_fold_spec l (None, 0))
    as [[Hr _]|(l1 & q & l2 & Hl & Hr & Hq & _ & H1 & H2)]; rewrite Hr; simpl.
  - discriminate.
  - intros [= <-]. now exists l1, l2.
Qed.

Lemma getBestHTTPPeer_of_throw (l : list P) msg :
  getBestHTTPPeer_of l = JS.Throw msg ->
  msg = "No best peer found"
  /\ Forall (fun q => peer_httpActive q = true -> height_or_0 q < 0) l.
Proof.
  unfold getBestHTTPPeer_of, scan.
  destruct (scan_fold_spec l (None, 0))
    as [[Hr Hall]|(l1 & q & l2 & Hl & Hr & Hq & _ & H1 & H2)]; rewrite Hr; simpl.
  - intros [= <-]. now split.
  - discriminate.
Qed.

Lemma getBestHTTPPeer_of_inactive (l : list P) :
  Forall (fun q => peer_httpActive q = false) l ->
  getBestHTTPPeer_of l = JS.Throw "No best peer found".
Proof.
  intros Hall. unfold getBestHTTPPeer_of, scan.
  enough (forall acc, fold_left scan_step l acc = acc) as -> by reflexivity.
  induction Hall as [|x l Hx _ IH]; intros acc; simpl; [reflexivity|].
  now rewrite scan_step_inactive, IH.
Qed.

Lemma httpActiveCount_zero (l : list P) :
  httpActiveCount l = 0%nat <-> Forall (fun q => peer_httpActive q = false) l.
Proof.
  unfold httpActiveCount. induction l as [|x l IH]; simpl.
  - split; [constructor | reflexivity].
  - destruct (peer_httpActive x) eqn:Hx; simpl.
    + split; [discriminate|]. intros Hall. inversion Hall; congruence.
    + rewrite IH. split; [now constructor | intros Hall; now inversion Hall].
Qed.

Lemma httpActiveCount_perm (l l' : list P) :
  Permutation l l' -> httpActiveCount l = httpActiveCount l'.
Proof.
  intros Hp. unfold httpActiveCount.
  induction Hp; simpl; try congruence.
  - destruct (peer_httpActive x); simpl; congruence.
  - destruct (peer_httpActive x), (peer_httpActive y); reflexivity.
Qed.

(** The method always has an outcome. *)
Lemma getBestHTTPPeer_total (m : PeerManager P) : exists r, getBestHTTPPeer m r.
Proof.
  exists (getBestHTTPPeer_of (peers m)), (peers m). split; [apply Permutation_refl | reflexivity].
Qed.

End ScanFacts.

(** ** The staging pass of the discovery tick *)

Section DiscoveryFacts.
Context {P : Type} `{PC : PeerConnection P}.
Variable satisfies : string -> string -> bool.
Variable config : Config.
Variable ownNode : OwnNodeOptions.

Local Abbreviation AddPeer := (addPeer satisfies config ownNode).
Local Abbreviation UpdatePeers := (updatePeers satisfies config ownNode).
Local Abbreviation Admissible := (admissible satisfies config ownNode).
Local Abbreviation NewPeer := (new_peer_of config ownNode).
Local Abbreviation Discover := (discover ownNode).
Local Abbreviation AddPeers :=
  (fold_left (fun acc peer => addPeer satisfies config ownNode peer acc)).

Implicit Types (m : PeerManager P) (peer : PeerInfo) (n : string).

Lemma with_nonce_nil_find n (l : list PeerInfo) (q : PeerInfo -> bool) :
  (forall c, q c = true -> nonce c = n) ->
  with_nonce n l = [] -> find q l = None.
Proof.
  intros Hq. unfold with_nonce. induction l as [|c l IH]; simpl; [reflexivity|].
  destruct (String.eqb_spec (nonce c) n) as [He|Hne]; [discriminate|].
  intros Hl. destruct (q c) eqn:Hqc; [apply Hq in Hqc; contradiction | now apply IH].
Qed.

(** The staging loop keeps, for a nonce that is neither registered nor the
    own one, the first candidate that carries it. *)
Lemma stage_with_nonce (registry : list P) n :
  n <> own_nonce ownNode ->
  find (fun item => (opt_nonce (peer_options item) =? n)%string) registry = None ->
  forall (l acc : list PeerInfo),
    with_nonce n (fold_left (stage_step ownNode registry) l acc)
    = match with_nonce n acc with
      | [] => match first_with_nonce n l with Some c => [c] | None => [] end
      | kept => kept
      end.
Proof.
  intros Hown Hreg l. induction l as [|peer l IH]; intros acc.
  - simpl. now destruct (with_nonce n acc).
  - cbn [fold_left]. rewrite IH. clear IH.
    unfold first_with_nonce, stage_step. cbn [find].
    destruct (String.eqb_spec (nonce peer) n) as [He|Hne].
    + rewrite He, Hreg.
      destruct (find (fun item => (nonce item =? n)%string
                                  || (n =? own_nonce ownNode)%string) acc)
        as [item|] eqn:Hf.
      * apply find_some in Hf as [Hin Hq].
        apply orb_prop in Hq as [Hq|Hq]; [|apply String.eqb_eq in Hq; contradiction].
        assert (Hw : In item (with_nonce n acc)) by (apply filter_In; now split).
        destruct (with_nonce n acc); [contradiction | reflexivity].
      * assert (Hw : with_nonce n acc = []).
        { unfold with_nonce. destruct (filter _ acc) as [|c t] eqn:Hfl; [reflexivity|].
          assert (Hc : In c (filter (fun c => (nonce c =? n)%string) acc))
            by (rewrite Hfl; now left).
          apply filter_In in Hc as [Hin Hc].
          eapply find_none in Hf; [|exact Hin]. simpl in Hf.
          rewrite Hc in Hf. discriminate. }
        rewrite Hw. unfold with_nonce in *. rewrite filter_app, Hw. simpl.
        now rewrite He, String.eqb_refl.
    + assert (Hskip : with_nonce n (acc ++ [peer]) = with_nonce n acc).
      { unfold with_nonce. rewrite filter_app. simpl.
        apply String.eqb_neq in Hne. rewrite Hne. apply app_nil_r. }
      destruct (find (fun item => (opt_nonce (peer_options item) =? nonce peer)%string)
                     registry); [reflexivity|].
      destruct (find (fun item => (nonce item =? nonce peer)%string
                                  || (nonce peer =? own_nonce ownNode)%string) acc);
        [reflexivity|]. now rewrite Hskip.
Qed.

Lemma discover_with_nonce m n :
  n <> own_nonce ownNode ->
  find (fun item => (opt_nonce (peer_options item) =? n)%string) (peers m) = None ->
  with_nonce n (Discover m)
  = match first_with_nonce n (peerList m) with Some c => [c] | None => [] end.
Proof.
  intros Hown Hreg. unfold discover.
  now rewrite (stage_with_nonce (peers m) Hown Hreg).
Qed.

(** In a registry keyed by nonce the test of the staging loop is the
    membership test of the map. *)
Lemma registered_find m n :
  keyed_by_nonce m ->
  (find (fun item => (opt_nonce (peer_options item) =? n)%string) (peers m) = None
   <-> JSMap.get (_peers m) n = None).
Proof.
  unfold keyed_by_nonce, peers, JSMap.values.
  generalize (_peers m). intros ps.
  induction ps as [|[k v] ps IH]; simpl; intros Hk; [now split|].
  apply Forall_cons_iff in Hk as [Hkv Hps]. simpl in Hkv. rewrite Hkv.
  destruct (k =? n)%string; [split; discriminate | now apply IH].
Qed.

Lemma without_undefined_In {A} (x : A) (l : list (option A)) :
  In (Some x) l <-> In x (JS.without_undefined l).
Proof.
  induction l as [|[y|] l IH]; simpl; [tauto| |].
  - rewrite <- IH. split; intros [H|H]; auto; left; congruence.
  - rewrite <- IH. split; [intros [H|H]; [discriminate|assumption] | auto].
Qed.

Lemma get_In_peers m n (p : P) : JSMap.get (_peers m) n = Some p -> In p (peers m).
Proof.
  unfold peers, JSMap.values.
  induction (_peers m) as [|[k v] ps IH]; simpl; [discriminate|].
  destruct (k =? n)%string; [intros [= ->]; now left | right; now apply IH].
Qed.

(** A candidate listed by a registered record is in the staging
    sequence. *)
Lemma reported_in_peerList m (p : P) peer :
  In p (peers m) -> In (Some peer) (peer_peers p) -> In peer (peerList m).
Proof.
  intros Hp Hpeer. unfold peerList. apply without_undefined_In.
  apply in_flat_map. eauto.
Qed.

(** The loop over [newPeers]. *)
Lemma addPeer_has_admitted peer m :
  Admissible peer = true -> JSMap.has (_peers (AddPeer peer m)) (nonce peer) = true.
Proof.
  intros Ha.
  destruct (addPeer_cases satisfies config ownNode peer m)
    as [[-> [Hr|Hh]]|(_ & _ & ->)]; [congruence | assumption |].
  apply JSMapFacts.has_get. simpl. rewrite JSMapFacts.get_app.
  destruct (JSMap.get (_peers m) (nonce peer)); eauto.
  simpl. rewrite String.eqb_refl. eauto.
Qed.

Lemma addPeers_has_preserved l : forall m k,
  JSMap.has (_peers m) k = true -> JSMap.has (_peers (AddPeers l m)) k = true.
Proof.
  intros m k Hk.
  apply (addPeers_preserve satisfies config ownNode
           (fun m' => JSMap.has (_peers m') k = true)); [|assumption].
  intros peer m'. apply addPeer_has_preserved.
Qed.

Lemma addPeers_admits l : forall m peer,
  In peer l -> Admissible peer = true ->
  JSMap.has (_peers (AddPeers l m)) (nonce peer) = true.
Proof.
  induction l as [|c l IH]; simpl; intros m peer Hin Ha; [contradiction|].
  destruct Hin as [->|Hin].
  - apply addPeers_has_preserved. now apply addPeer_has_admitted.
  - now apply IH.
Qed.

(** When the only candidate of nonce [n] in [newPeers] is [c] and [n] is
    not registered yet, the record under [n] after the loop is the one
    built from [c] if [c] passes the checks, and there is none otherwise. *)
Lemma addPeers_get l n c : forall m,
  with_nonce n l = [c] -> JSMap.get (_peers m) n = None ->
  JSMap.get (_peers (AddPeers l m)) n
  = if Admissible c then Some (NewPeer c) else None.
Proof.
  induction l as [|x l IH]; simpl; intros m Hw Hg; [discriminate|].
  unfold with_nonce in Hw. simpl in Hw.
  destruct (String.eqb_spec (nonce x) n) as [He|Hne].
  - injection Hw as -> Hrest.
    destruct (Admissible c) eqn:Ha.
    + assert (Hnow : JSMap.get (_peers (AddPeer c m)) n = Some (NewPeer c)).
      { rewrite (addPeer_admitted satisfies config ownNode c m Ha).
        - simpl. rewrite JSMapFacts.get_app, Hg, He. simpl. now rewrite String.eqb_refl.
        - apply JSMapFacts.has_false_get. now rewrite He. }
      revert Hnow. generalize (AddPeer c m). clear -l.
      induction l as [|y l IHl]; simpl; intros m' Hm'; [assumption|].
      apply IHl. now apply addPeer_get_preserved.
    + rewrite (addPeer_rejected satisfies config ownNode c m Ha).
      revert Hg Hrest. generalize m. clear -Ha.
      induction l as [|y l IHl]; simpl; intros m' Hm' Hrest; [assumption|].
      destruct (String.eqb_spec (nonce y) n) as [Hy|Hy]; [discriminate|].
      apply IHl; [|assumption]. now rewrite addPeer_get_other.
  - apply IH; [exact Hw|]. now rewrite addPeer_get_other.
Qed.

Lemma updatePeers_get_preserved m k v :
  JSMap.get (_peers m) k = Some v -> JSMap.get (_peers (UpdatePeers m)) k = Some v.
Proof.
  intros Hg. unfold updatePeers.
  apply (addPeers_preserve satisfies config ownNode
           (fun m' => JSMap.get (_peers m') k = Some v)); [|assumption].
  intros peer m'. apply addPeer_get_preserved.
Qed.

Lemma updatePeers_has_preserved m k :
  JSMap.has (_peers m) k = true -> JSMap.has (_peers (UpdatePeers m)) k = true.
Proof.
  rewrite !JSMapFacts.has_get. intros [v Hv]. exists v. now apply updatePeers_get_preserved.
Qed.

Lemma updatePeers_keyed_by_nonce m : keyed_by_nonce m -> keyed_by_nonce (UpdatePeers m).
Proof.
  intros Hk. unfold updatePeers.
  apply (addPeers_preserve satisfies config ownNode keyed_by_nonce); [|assumption].
  intros peer m'. apply addPeer_keyed_by_nonce.
Qed.

Lemma updatePeers_count_le_1 m k :
  (JSMap.count (_peers m) k <= 1)%nat -> (JSMap.count (_peers (UpdatePeers m)) k <= 1)%nat.
Proof.
  intros Hc. unfold updatePeers.
  apply (addPeers_preserve satisfies config ownNode
           (fun m' => (JSMap.count (_peers m') k <= 1)%nat)); [|assumption].
  intros peer m'. apply addPeer_count_le_1.
Qed.

Lemma admissible_same peer peer' :
  nonce peer = nonce peer' -> version peer = version peer' ->
  Admissible peer = Admissible peer'.
Proof. unfold admissible. now intros -> ->. Qed.

(** One tick admits every admissible candidate that some registered record
    lists, provided the candidates agree on the version per nonce. *)
Lemma updatePeers_admits m peer :
  keyed_by_nonce m -> nonce_determines_version (peerList m) ->
  In peer (peerList m) -> Admissible peer = true ->
  JSMap.has (_peers (UpdatePeers m)) (nonce peer) = true.
Proof.
  intros Hk Hv Hin Ha.
  destruct (JSMap.get (_peers m) (nonce peer)) as [p|] eqn:Hg.
  - apply updatePeers_has_preserved, JSMapFacts.has_get. eauto.
  - assert (Hown : nonce peer <> own_nonce ownNode)
      by (apply admissible_spec in Ha; tauto).
    pose proof (proj2 (registered_find (nonce peer) Hk) Hg) as Hreg.
    pose proof (discover_with_nonce m Hown Hreg) as Hd.
    destruct (first_with_nonce (nonce peer) (peerList m)) as [c|] eqn:Hf.
    + unfold first_with_nonce in Hf. apply find_some in Hf as [Hc Hcn].
      apply String.eqb_eq in Hcn.
      assert (Hcd : In c (Discover m)).
      { assert (Hcw : In c (with_nonce (nonce peer) (Discover m)))
          by (rewrite Hd; now left).
        now apply filter_In in Hcw. }
      rewrite <- Hcn. unfold updatePeers. apply addPeers_admits; [assumption|].
      rewrite <- Ha. apply admissible_same; [assumption|]. now apply Hv.
    + unfold first_with_nonce in Hf. eapply find_none in Hf; [|exact Hin].
      simpl in Hf. now rewrite String.eqb_refl in Hf.
Qed.

(** One tick admits a reported candidate when every candidate reported
    under its nonce passes the checks of [addPeer]. *)
Lemma updatePeers_admits_reported m peer :
  keyed_by_nonce m -> In peer (peerList m) ->
  Forall (fun x => nonce x = nonce peer -> Admissible x = true) (peerList m) ->
  JSMap.has (_peers (UpdatePeers m)) (nonce peer) = true.
Proof.
  intros Hk Hin Hall.
  pose proof (proj1 (Forall_forall _ _) Hall) as Hpass.
  destruct (JSMap.get (_peers m) (nonce peer)) as [p|] eqn:Hg.
  - apply updatePeers_has_preserved, JSMapFacts.has_get. eauto.
  - assert (Hown : nonce peer <> own_nonce ownNode).
    { pose proof (Hpass peer Hin eq_refl) as Ha.
      apply admissible_spec in Ha. tauto. }
    pose proof (proj2 (registered_find (nonce peer) Hk) Hg) as Hreg.
    pose proof (discover_with_nonce m Hown Hreg) as Hd.
    destruct (first_with_nonce (nonce peer) (peerList m)) as [c|] eqn:Hf.
    + unfold first_with_nonce in Hf. apply find_some in Hf as [Hc Hcn].
      apply String.eqb_eq in Hcn.
      assert (Hcd : In c (Discover m)).
      { assert (Hcw : In c (with_nonce (nonce peer) (Discover m)))
          by (rewrite Hd; now left).
        now apply filter_In in Hcw. }
      rewrite <- Hcn. unfold updatePeers. apply addPeers_admits; [assumption|].
      now apply Hpass.
    + unfold first_with_nonce in Hf. eapply find_none in Hf; [|exact Hin].
      simpl in Hf. now rewrite String.eqb_refl in Hf.
Qed.

(** The transport keeps keys and identities. *)
Lemma same_identities_keys m m' :
  same_identities m m' -> JSMap.keys (_peers m) = JSMap.keys (_peers m').
Proof.
  unfold same_identities, JSMap.keys. intros H.
  apply (f_equal (map fst)) in H. rewrite !map_map in H. exact H.
Qed.

Lemma same_identities_has m m' k :
  same_identities m m' -> JSMap.has (_peers m) k = true -> JSMap.has (_peers m') k = true.
Proof.
  intros H. rewrite !JSMapFacts.has_keys. now rewrite (same_identities_keys H).
Qed.

Lemma same_identities_keyed m m' :
  same_identities m m' -> keyed_by_nonce m -> keyed_by_nonce m'.
Proof.
  unfold same_identities, keyed_by_nonce.
  generalize (_peers m) (_peers m'). intros ps.
  induction ps as [|[k v] ps IH]; intros [|[k' v'] ps']; simpl; intros H Hk;
    try discriminate; constructor.
  - injection H as Hkk Ho _. inversion Hk; subst. simpl in *. congruence.
  - injection H as _ _ Hrest. inversion Hk; subst. now apply IH.
Qed.

End DiscoveryFacts.

(** ** The properties of the specification *)

Section Specification.
Context {P : Type} `{PC : PeerConnection P}.
Variable satisfies : string -> string -> bool.
Variable config : Config.
Variable ownNode : OwnNodeOptions.

Local Abbreviation AddPeer := (addPeer satisfies config ownNode).
Local Abbreviation UpdatePeers := (updatePeers satisfies config ownNode).
Local Abbreviation Constructor := (constructor satisfies config ownNode).
Local Abbreviation Run := (run satisfies config ownNode).
Local Abbreviation Admissible := (admissible satisfies config ownNode).
Local Abbreviation NewPeer := (new_peer_of config ownNode).
Local Abbreviation Discover := (discover ownNode).

Implicit Types (m : PeerManager P) (peer : PeerInfo) (n : string).

(** C1, as the code has it: the record [getBestHTTPPeer] returns is the
    LAST HTTP-active record of the shuffled list whose height (0 without a
    status) reaches the running maximum: every HTTP-active record before it
    is at most as high, every one after it is strictly lower.  On a tie the
    record later in shuffle order is returned. *)
Theorem getBestHTTPPeer_keeps_last_max m (shuffled : list P) (p : P) :
  Permutation shuffled (peers m) ->
  getBestHTTPPeer_of shuffled = JS.Return p ->
  last_max shuffled p /\ In p (peers m).
Proof.
  intros Hperm Hr. pose proof (getBestHTTPPeer_of_return _ Hr) as Hl.
  split; [assumption|].
  destruct Hl as (l1 & l2 & -> & _). eapply Permutation_in; [exact Hperm|].
  apply in_elt.
Qed.

(** C2, as the code has it: ingesting a status update changes neither the
    best height nor the best broadhash; [getBestHeight] keeps its value
    until the next discovery tick, after which it is at least the height of
    every status held by a registered record (and never below its former
    value). *)
Theorem handleStatusUpdate_keeps_bestHeight update m :
  getBestHeight (handleStatusUpdate update m) = getBestHeight m
  /\ bestBroadhash (handleStatusUpdate update m) = bestBroadhash m
  /\ Forall (fun p => match peer_status p with
                      | Some st =>
                          height st
                          <= getBestHeight (UpdatePeers (handleStatusUpdate update m))
                      | None => True
                      end) (peers (handleStatusUpdate update m))
  /\ getBestHeight m <= getBestHeight (UpdatePeers (handleStatusUpdate update m)).
Proof.
  unfold getBestHeight. repeat split.
  - apply handleStatusUpdate_bestHeight.
  - apply handleStatusUpdate_bestBroadhash.
  - rewrite updatePeers_bestHeight. apply best_fold_covers.
  - rewrite <- (handleStatusUpdate_bestHeight update m) at 1.
    apply updatePeers_bestHeight_le.
Qed.

(** C3: along every sequence of operations (addPeer calls, discovery
    ticks, status updates, connection changes, changes made by the
    transport inside the records) the value of [getBestHeight] never
    decreases: what it returns after a prefix of the sequence is at most
    what it returns after the whole sequence. *)
Theorem getBestHeight_monotone (ops1 ops2 : list (Op P)) m :
  getBestHeight (Run ops1 m) <= getBestHeight (Run (ops1 ++ ops2) m).
Proof.
  unfold getBestHeight, run. rewrite fold_left_app.
  apply (run_bestHeight_le satisfies config ownNode ops2).
Qed.

(** C4: a call of [addPeer] either leaves the manager as it is or appends
    one entry, whose nonce is neither the own nonce nor contains the
    marker "monitoring"; and in every state reached from the constructor by
    any sequence of operations no key of the registry is the own nonce or
    contains the marker. *)
Theorem addPeer_never_own_or_probe peer m (ops : list (Op P)) :
  (AddPeer peer m = m
   \/ (_peers (AddPeer peer m) = _peers m ++ [(nonce peer, NewPeer peer)]
       /\ nonce peer <> own_nonce ownNode
       /\ ~ contains (nonce peer) "monitoring"))
  /\ registry_clean ownNode (Run ops Constructor).
Proof.
  split.
  - destruct (addPeer_cases satisfies config ownNode peer m)
      as [[Hm _]|(Ha & _ & Hm)]; [now left | right].
    rewrite Hm. apply admissible_spec in Ha. simpl. tauto.
  - apply run_registry_clean, constructor_registry_clean.
Qed.

(** C5, as the code has it: on a registry without duplicate keys, after
    two calls of [addPeer] with candidates of the same nonce there is at
    most one entry under that nonce.  Calling twice with the same candidate
    changes nothing the second time.  The nonce is registered after the
    first call exactly when it was registered before or the candidate
    passes the three checks; in that case the second call (with any
    candidate of that nonce) changes nothing and exactly one entry is
    stored; when the first call admitted the candidate, the entry is the
    record built from the first call's data. *)
Theorem addPeer_twice m (c c' : PeerInfo) :
  NoDup (JSMap.keys (_peers m)) -> nonce c' = nonce c ->
  AddPeer c (AddPeer c m) = AddPeer c m
  /\ (JSMap.count (_peers (AddPeer c' (AddPeer c m))) (nonce c) <= 1)%nat
  /\ (JSMap.has (_peers (AddPeer c m)) (nonce c) = true
      <-> JSMap.has (_peers m) (nonce c) = true \/ Admissible c = true)
  /\ (JSMap.has (_peers (AddPeer c m)) (nonce c) = true ->
      AddPeer c' (AddPeer c m) = AddPeer c m
      /\ JSMap.count (_peers (AddPeer c' (AddPeer c m))) (nonce c) = 1%nat)
  /\ (JSMap.has (_peers m) (nonce c) = false -> Admissible c = true ->
      JSMap.get (_peers (AddPeer c' (AddPeer c m))) (nonce c) = Some (NewPeer c)).
Proof.
  intros Hnd Hn.
  assert (Hc0 : (JSMap.count (_peers m) (nonce c) <= 1)%nat).
  { clear -Hnd. unfold JSMap.count, JSMap.keys in *.
    induction (_peers m) as [|[k v] ps IH]; simpl in *; [lia|].
    inversion Hnd as [|? ? Hk Hps]; subst.
    destruct (String.eqb_spec k (nonce c)) as [->|Hne]; simpl; [|now apply IH].
    enough (List.length (filter (fun e => (fst e =? nonce c)%string) ps) = 0%nat) by lia.
    apply (JSMapFacts.count_zero ps), JSMapFacts.get_none_keys. exact Hk. }
  assert (Hc2 : (JSMap.count (_peers (AddPeer c' (AddPeer c m))) (nonce c) <= 1)%nat)
    by now do 2 apply addPeer_count_le_1.
  assert (Hiff : JSMap.has (_peers (AddPeer c m)) (nonce c) = true
                 <-> JSMap.has (_peers m) (nonce c) = true \/ Admissible c = true).
  { split.
    - intros Hh.
      destruct (addPeer_cases satisfies config ownNode c m)
        as [[Hm _]|(Ha & _ & _)]; [left; now rewrite Hm in Hh | now right].
    - intros [Hh|Ha]; [now apply addPeer_has_preserved | now apply addPeer_has_admitted]. }
  assert (Hsecond : JSMap.has (_peers (AddPeer c m)) (nonce c) = true ->
                    AddPeer c' (AddPeer c m) = AddPeer c m).
  { intros Hh. apply addPeer_present. now rewrite Hn. }
  repeat split.
  - destruct (addPeer_cases satisfies config ownNode c m)
      as [[Hm [Hr|Hh]]|(Ha & _ & _)].
    + rewrite Hm. now apply addPeer_rejected.
    + rewrite Hm. now apply addPeer_present.
    + apply addPeer_present. now apply addPeer_has_admitted.
  - exact Hc2.
  - apply Hiff.
  - apply Hiff.
  - now apply Hsecond.
  - rewrite (Hsecond H) in *.
    destruct (JSMap.count (_peers (AddPeer c m)) (nonce c)) as [|[|k]] eqn:Hc;
      [|reflexivity|lia].
    apply JSMapFacts.count_zero, JSMapFacts.has_false_get in Hc. congruence.
  - intros Hh Ha. rewrite Hsecond by now apply addPeer_has_admitted.
    rewrite (addPeer_admitted satisfies config ownNode c m Ha Hh). simpl.
    rewrite JSMapFacts.get_app.
    apply JSMapFacts.has_false_get in Hh. rewrite Hh. simpl.
    now rewrite String.eqb_refl.
Qed.

(** C6: whatever the shuffle, on a registry whose statuses carry no
    negative height [getBestHTTPPeer] throws "No best peer found" exactly
    when no registered record is HTTP-active; and a record it returns is a
    registered record whose HTTP-active flag is set. *)
Theorem getBestHTTPPeer_throws_iff_none_active m (r : JS.result P) :
  getBestHTTPPeer m r -> heights_nonneg (peers m) ->
  (r = JS.Throw "No best peer found" <-> httpActiveCount (peers m) = 0%nat)
  /\ ((exists msg, r = JS.Throw msg) -> r = JS.Throw "No best peer found")
  /\ (forall p, r = JS.Return p -> peer_httpActive p = true /\ In p (peers m)).
Proof.
  intros (shuffled & Hperm & <-) Hnn.
  rewrite <- (httpActiveCount_perm Hperm), httpActiveCount_zero.
  repeat split.
  - intros Hr. apply getBestHTTPPeer_of_throw in Hr as [_ Hall].
    apply Forall_forall. intros q Hq.
    destruct (peer_httpActive q) eqn:Ha; [exfalso | reflexivity].
    pose proof (proj1 (Forall_forall _ _) Hall q Hq Ha) as Hlt.
    assert (Hq' : In q (peers m)) by (eapply Permutation_in; eauto).
    pose proof (proj1 (Forall_forall _ _) Hnn q Hq'). simpl in *. lia.
  - apply getBestHTTPPeer_of_inactive.
  - intros [msg Hr]. rewrite Hr. f_equal.
    now apply getBestHTTPPeer_of_throw in Hr as [-> _].
  - apply getBestHTTPPeer_of_return in H as (l1 & l2 & _ & Hp & _). exact Hp.
  - apply getBestHTTPPeer_of_return in H as (l1 & l2 & -> & _).
    eapply Permutation_in; [exact Hperm | apply in_elt].
Qed.

(** C7, as the code has it: start from a registry that holds only A, whose
    list of further peers includes B; run a tick; let the transport refresh
    the records (keys and identities untouched) so that the record of B lists
    C; run a second tick.  If every candidate reported under the nonce of B
    at the first tick, and every candidate reported under the nonce of C at
    the second tick, passes the checks of [addPeer] (B and C among them), the
    registry then holds A, B and C. *)
Theorem discovery_converges_in_two_ticks m0 m1 nA (pa : P) (B C : PeerInfo) :
  _peers m0 = [(nA, pa)] -> opt_nonce (peer_options pa) = nA ->
  In (Some B) (peer_peers pa) ->
  Forall (fun x => nonce x = nonce B -> Admissible x = true) (peerList m0) ->
  same_identities (UpdatePeers m0) m1 ->
  (forall pb, JSMap.get (_peers m1) (nonce B) = Some pb -> In (Some C) (peer_peers pb)) ->
  Forall (fun x => nonce x = nonce C -> Admissible x = true) (peerList m1) ->
  JSMap.has (_peers (UpdatePeers m1)) nA = true
  /\ JSMap.has (_peers (UpdatePeers m1)) (nonce B) = true
  /\ JSMap.has (_peers (UpdatePeers m1)) (nonce C) = true.
Proof.
  intros Hreg HA HB Hp0 Hsame HC Hp1.
  assert (Hk0 : keyed_by_nonce m0).
  { unfold keyed_by_nonce. rewrite Hreg. constructor; [exact HA | constructor]. }
  assert (Hk1 : keyed_by_nonce m1).
  { eapply same_identities_keyed; [exact Hsame|].
    now apply updatePeers_keyed_by_nonce. }
  assert (HinB : In B (peerList m0)).
  { apply reported_in_peerList with (p := pa); [|assumption].
    unfold peers. rewrite Hreg. now left. }
  assert (HhasA : JSMap.has (_peers m1) nA = true).
  { eapply same_identities_has; [exact Hsame|].
    apply updatePeers_has_preserved. unfold JSMap.has. rewrite Hreg. simpl.
    now rewrite String.eqb_refl. }
  assert (HhasB : JSMap.has (_peers m1) (nonce B) = true).
  { eapply same_identities_has; [exact Hsame|].
    now apply updatePeers_admits_reported. }
  repeat split.
  - now apply updatePeers_has_preserved.
  - now apply updatePeers_has_preserved.
  - apply JSMapFacts.has_get in HhasB as [pb Hpb].
    apply updatePeers_admits_reported; try assumption.
    apply reported_in_peerList with (p := pb); [|now apply HC].
    eapply get_In_peers, Hpb.
Qed.

(** C8: when two different registered records both list a candidate of the
    same nonce [n], a nonce that is neither registered nor the own one, the
    tick hands exactly one candidate of nonce [n] to [addPeer]: the first
    one of the flattened staging sequence.  Afterwards the registry holds
    at most one entry under [n]; it holds one, the record built from that
    first candidate, exactly when the candidate passes the checks of
    [addPeer]. *)
Theorem discovery_deduplicates m n (r1 r2 r3 : JSMap.t P) k1 k2 (p1 p2 : P)
    (c1 c2 : PeerInfo) :
  keyed_by_nonce m ->
  _peers m = r1 ++ (k1, p1) :: r2 ++ (k2, p2) :: r3 ->
  In (Some c1) (peer_peers p1) -> In (Some c2) (peer_peers p2) ->
  nonce c1 = n -> nonce c2 = n ->
  JSMap.has (_peers m) n = false -> n <> own_nonce ownNode ->
  exists first,
    first_with_nonce n (peerList m) = Some first
    /\ with_nonce n (Discover m) = [first]
    /\ (JSMap.count (_peers (UpdatePeers m)) n <= 1)%nat
    /\ JSMap.get (_peers (UpdatePeers m)) n
       = (if Admissible first then Some (NewPeer first) else None)
    /\ JSMap.count (_peers (UpdatePeers m)) n
       = (if Admissible first then 1%nat else 0%nat).
Proof.
  intros Hk Hreg Hc1 Hc2 Hn1 Hn2 Hhas Hown.
  apply JSMapFacts.has_false_get in Hhas.
  pose proof (proj2 (registered_find n Hk) Hhas) as Hfind.
  pose proof (discover_with_nonce ownNode m Hown Hfind) as Hd.
  assert (Hin1 : In c1 (peerList m)).
  { apply reported_in_peerList with (p := p1); [|assumption].
    unfold peers, JSMap.values. rewrite Hreg, map_app. apply in_or_app. right. now left. }
  destruct (first_with_nonce n (peerList m)) as [first|] eqn:Hf.
  - exists first.
    assert (Hcount : (JSMap.count (_peers (UpdatePeers m)) n <= 1)%nat).
    { apply updatePeers_count_le_1.
      apply JSMapFacts.count_zero in Hhas. rewrite Hhas. lia. }
    assert (Hget : JSMap.get (_peers (UpdatePeers m)) n
                   = if Admissible first then Some (NewPeer first) else None).
    { unfold updatePeers. now apply addPeers_get. }
    repeat split; try assumption.
    destruct (Admissible first).
    + destruct (JSMap.count (_peers (UpdatePeers m)) n) as [|[|k]] eqn:Hc;
        [|reflexivity|lia].
      apply JSMapFacts.count_zero in Hc. congruence.
    + now apply JSMapFacts.count_zero.
  - unfold first_with_nonce in Hf. eapply find_none in Hf; [|exact Hin1].
    simpl in Hf. apply String.eqb_neq in Hf. contradiction.
Qed.

(** C9: a candidate whose version does not satisfy the configured minimum
    version range is not inserted: [addPeer] returns normally (it has no
    failure outcome) and the manager, hence the registry with its keys and
    every record, is exactly what it was. *)
Theorem addPeer_rejects_version peer m :
  satisfies (version peer) (minVersion config) = false ->
  AddPeer peer m = m.
Proof.
  intros Hv. apply addPeer_rejected. unfold admissible. rewrite Hv.
  apply andb_false_r.
Qed.

(** C10: a status update whose nonce is the empty string is forwarded to no
    record and leaves the manager unchanged, so the entry stored under the
    empty nonce (the seed peer of the constructor) keeps its record; the
    constructor stores the seed under the empty nonce whenever it admits
    it. *)
Theorem handleStatusUpdate_empty_nonce m (h : Z) (b : string) :
  handleStatusUpdate_target (mkUpdate (Some "") h b) m = None
  /\ handleStatusUpdate (mkUpdate (Some "") h b) m = m
  /\ JSMap.get (_peers (handleStatusUpdate (mkUpdate (Some "") h b) m)) ""
     = JSMap.get (_peers m) ""
  /\ (_peers Constructor = [] \/ _peers Constructor = [("", NewPeer (seedInfo config))])
  /\ handleStatusUpdate (mkUpdate (Some "") h b) Constructor = Constructor.
Proof.
  assert (Hany : forall m', handleStatusUpdate (mkUpdate (Some "") h b) m' = m')
    by reflexivity.
  repeat split; try reflexivity.
  unfold constructor.
  destruct (addPeer_cases satisfies config ownNode (seedInfo config)
              (mkManager (JSMap.empty P) 0 ""))
    as [[-> _]|(_ & _ & ->)]; [now left | now right].
Qed.

End Specification.

(** ** The properties on concrete managers *)

(** The scenario of the specification: a status update alone does not move
    the best height; the next tick does, and a lower report later does not
    lower it. *)
Example best_height_scenario :
  let s1 := handleStatusUpdate Sample.status100 Sample.seeded in
  let s2 := Sample.updatePeers s1 in
  let s3 := Sample.updatePeers
              (handleStatusUpdate (mkUpdate (Some "p2") 90 "h2")
                 (Sample.addPeer (Sample.info "p2" "1.0.0") s2)) in
  let s4 := Sample.updatePeers (handleStatusUpdate (mkUpdate (Some "p2") 150 "h3") s3) in
  getBestHeight s1 = 0 /\ getBestHeight s2 = 100 /\ getBestHeight s3 = 100
  /\ getBestHeight s4 = 150 /\ bestBroadhash s4 = "h3".
Proof. vm_compute. repeat split. Qed.

(** C1 as stated fails: with two HTTP-active records of equal height 5 the
    scan returns the later one, not the earlier. *)
Lemma getBestHTTPPeer_tie_returns_later :
  getBestHTTPPeer_of [Sample.tieA; Sample.tieB] = JS.Return Sample.tieB
  /\ height_or_0 Sample.tieA = height_or_0 Sample.tieB
  /\ ~ first_max [Sample.tieA; Sample.tieB] Sample.tieB
  /\ ~ (forall (shuffled : list SimplePeer) p,
          getBestHTTPPeer_of shuffled = JS.Return p -> first_max shuffled p).
Proof.
  assert (Hnot : ~ first_max [Sample.tieA; Sample.tieB] Sample.tieB).
  { intros (l1 & l2 & Hl & _ & H1 & _).
    destruct l1 as [|x l1]; [discriminate|].
    injection Hl as <- Hl.
    apply Forall_cons_iff in H1 as [H1 _].
    specialize (H1 eq_refl). vm_compute in H1. discriminate. }
  repeat split; try assumption.
  intros Hall. apply Hnot, Hall. reflexivity.
Qed.

Lemma getBestHTTPPeer_keeps_last_max_witness :
  Permutation [Sample.tieA; Sample.tieB] (peers Sample.tied)
  /\ last_max [Sample.tieA; Sample.tieB] Sample.tieB
  /\ In Sample.tieB (peers Sample.tied).
Proof.
  split; [apply Permutation_refl|].
  apply (getBestHTTPPeer_keeps_last_max Sample.tied
           (shuffled := [Sample.tieA; Sample.tieB]) (p := Sample.tieB)).
  - apply Permutation_refl.
  - reflexivity.
Defined.

(** C2 as stated fails: the peer "seed" is registered, the best height is 0,
    a status update with height 100 is ingested and stored in the record,
    and [getBestHeight] still returns 0. *)
Lemma handleStatusUpdate_does_not_raise_bestHeight :
  JSMap.has (_peers Sample.seeded) "seed" = true
  /\ getBestHeight Sample.seeded = 0
  /\ option_map sp_status
       (JSMap.get (_peers (handleStatusUpdate Sample.status100 Sample.seeded)) "seed")
     = Some (Some (mkStatus 100 "h1"))
  /\ getBestHeight (handleStatusUpdate Sample.status100 Sample.seeded) = 0
  /\ getBestHeight (handleStatusUpdate Sample.status100 Sample.seeded) <> 100.
Proof. vm_compute. repeat split. discriminate. Qed.

(** C5 as stated fails: for a candidate that carries the own nonce, or one
    whose version is turned away, two calls leave no entry under its
    nonce. *)
Lemma addPeer_twice_rejected_leaves_none :
  JSMap.count (_peers (Sample.addPeer Sample.ownCandidate
                         (Sample.addPeer Sample.ownCandidate Sample.start))) "own" = 0%nat
  /\ JSMap.count (_peers (Sample.addPeer Sample.oldCandidate
                            (Sample.addPeer Sample.oldCandidate Sample.start))) "old" = 0%nat
  /\ JSMap.count (_peers (Sample.addPeer Sample.ownCandidate
                            (Sample.addPeer Sample.ownCandidate Sample.start))) "own" <> 1%nat.
Proof. vm_compute. repeat split. discriminate. Qed.

Lemma addPeer_twice_witness :
  NoDup (JSMap.keys (_peers Sample.start))
  /\ JSMap.count (_peers (Sample.addPeer (Sample.info "p2" "1.0.0")
                            (Sample.addPeer (Sample.info "p2" "1.0.0") Sample.start))) "p2"
     = 1%nat.
Proof.
  assert (Hnd : NoDup (JSMap.keys (_peers Sample.start))).
  { vm_compute. constructor; [intros [] | constructor]. }
  split; [exact Hnd|].
  apply (addPeer_twice Sample.satisfies Sample.config Sample.ownNode
           Sample.start (Sample.info "p2" "1.0.0") (Sample.info "p2" "1.0.0")
           Hnd eq_refl).
  reflexivity.
Defined.

(** The hypothesis of C6 on the heights cannot be dropped: an HTTP-active
    record with a negative height is never kept. *)
Example getBestHTTPPeer_negative_height :
  httpActiveCount (peers Sample.below) = 1%nat
  /\ getBestHTTPPeer_of (peers Sample.below) = JS.Throw "No best peer found".
Proof. split; reflexivity. Qed.

Lemma getBestHTTPPeer_throws_iff_none_active_witness :
  getBestHTTPPeer Sample.tied (JS.Return Sample.tieB)
  /\ heights_nonneg (peers Sample.tied)
  /\ (JS.Return Sample.tieB = JS.Throw "No best peer found"
      <-> httpActiveCount (peers Sample.tied) = 0%nat).
Proof.
  assert (Hr : getBestHTTPPeer Sample.tied (JS.Return Sample.tieB)).
  { exists [Sample.tieA; Sample.tieB]. split; [apply Permutation_refl | reflexivity]. }
  assert (Hnn : heights_nonneg (peers Sample.tied)).
  { repeat constructor; vm_compute; discriminate. }
  split; [exact Hr|]. split; [exact Hnn|].
  exact (proj1 (getBestHTTPPeer_throws_iff_none_active Hr Hnn)).
Defined.

Lemma discovery_converges_in_two_ticks_witness :
  same_identities (Sample.updatePeers Sample.chain0) Sample.chain1
  /\ JSMap.keys (_peers Sample.chain0) = ["a"]
  /\ JSMap.has (_peers (Sample.updatePeers Sample.chain1)) "a" = true
  /\ JSMap.has (_peers (Sample.updatePeers Sample.chain1)) "b" = true
  /\ JSMap.has (_peers (Sample.updatePeers Sample.chain1)) "c" = true.
Proof.
  split; [reflexivity|]. split; [reflexivity|].
  apply (@discovery_converges_in_two_ticks SimplePeer _
           Sample.satisfies Sample.config Sample.ownNode
           Sample.chain0 Sample.chain1 "a" Sample.chainA Sample.candB Sample.candC).
  - reflexivity.
  - reflexivity.
  - left. reflexivity.
  - assert (Hpl : peerList Sample.chain0 = [Sample.candB]) by reflexivity.
    rewrite Hpl. apply Forall_cons; [intros _; reflexivity | apply Forall_nil].
  - reflexivity.
  - intros pb Hpb. vm_compute in Hpb. injection Hpb as <-. left. reflexivity.
  - assert (Hpl : peerList Sample.chain1 = [Sample.candB; Sample.candC]) by reflexivity.
    rewrite Hpl.
    apply Forall_cons; [intros _; reflexivity|].
    apply Forall_cons; [intros _; reflexivity | apply Forall_nil].
Defined.

(** C7 as stated fails: the registry holds only A, the list of A includes B
    and does not change, the record of B lists C from the second tick on, B
    and C pass the checks of [addPeer]; but the list of A also reports the
    nonce of C with a version that is turned away.  That report is staged
    first, C is dropped as a duplicate, and after two ticks, and after a
    third, C is not registered. *)
Lemma discovery_blocked_by_rejected_report :
  _peers Scenario.blocked0 = [("a", Scenario.blockedA)]
  /\ In (Some Sample.candB) (peer_peers Scenario.blockedA)
  /\ admissible Sample.satisfies Sample.config Sample.ownNode Sample.candB = true
  /\ admissible Sample.satisfies Sample.config Sample.ownNode Sample.candC = true
  /\ same_identities (Sample.updatePeers Scenario.blocked0) Scenario.blocked1
  /\ option_map sp_peers (JSMap.get (_peers Scenario.blocked1) "a")
     = Some (sp_peers Scenario.blockedA)
  /\ option_map sp_peers (JSMap.get (_peers Scenario.blocked1) "b")
     = Some [Some Sample.candC]
  /\ discover Sample.ownNode Scenario.blocked1 = [Scenario.candCold]
  /\ JSMap.keys (_peers (Sample.updatePeers Scenario.blocked1)) = ["a"; "b"]
  /\ JSMap.has (_peers (Sample.updatePeers Scenario.blocked1)) "c" = false
  /\ JSMap.has (_peers (Sample.updatePeers (Sample.updatePeers Scenario.blocked1))) "c"
     = false.
Proof.
  repeat split. left. reflexivity.
Qed.

Lemma discovery_deduplicates_witness :
  peerList Sample.twoReports = [Sample.candX; Sample.candX]
  /\ exists first,
       first_with_nonce "x" (peerList Sample.twoReports) = Some first
       /\ with_nonce "x" (discover Sample.ownNode Sample.twoReports) = [first]
       /\ (JSMap.count (_peers (Sample.updatePeers Sample.twoReports)) "x" <= 1)%nat
       /\ JSMap.get (_peers (Sample.updatePeers Sample.twoReports)) "x"
          = (if admissible Sample.satisfies Sample.config Sample.ownNode first
             then Some (new_peer_of Sample.config Sample.ownNode first) else None)
       /\ JSMap.count (_peers (Sample.updatePeers Sample.twoReports)) "x"
          = (if admissible Sample.satisfies Sample.config Sample.ownNode first
             then 1%nat else 0%nat).
Proof.
  split; [reflexivity|].
  apply (@discovery_deduplicates SimplePeer _
           Sample.satisfies Sample.config Sample.ownNode
           Sample.twoReports "x" [] [] [] "a1" "a2"
           (Sample.record "a1" None false [Some Sample.candX])
           (Sample.record "a2" None false [None; Some Sample.candX])
           Sample.candX Sample.candX).
  - repeat constructor.
  - reflexivity.
  - left. reflexivity.
  - right. left. reflexivity.
  - reflexivity.
  - reflexivity.
  - reflexivity.
  - discriminate.
Defined.

(** When the candidate that two records report is turned away for its
    version, the one call of [addPeer] inserts nothing. *)
Example discovery_deduplicates_rejected :
  discover Sample.ownNode Sample.twoOldReports = [Sample.candOld]
  /\ JSMap.get (_peers (Sample.updatePeers Sample.twoOldReports)) "x" = None.
Proof. split; reflexivity. Qed.

Lemma addPeer_rejects_version_witness :
  Sample.satisfies (version Sample.oldCandidate) (minVersion Sample.config) = false
  /\ Sample.addPeer Sample.oldCandidate Sample.start = Sample.start.
Proof.
  split; [reflexivity|].
  apply (addPeer_rejects_version Sample.satisfies Sample.config Sample.ownNode
           Sample.oldCandidate Sample.start).
  reflexivity.
Defined.

(** The constructor of the sample manager admits the seed under the empty
    nonce, and a status update with the empty nonce does not reach it. *)
Example seed_not_updated :
  JSMap.has (_peers Sample.start) "" = true
  /\ handleStatusUpdate (mkUpdate (Some "") 100 "h1") Sample.start = Sample.start
  /\ handleStatusUpdate (mkUpdate None 100 "h1") Sample.start = Sample.start.
Proof. repeat split. Qed.

(** The same at the first tick: when the list of A names the nonce of B
    first with a version that is turned away, the later report of B is
    dropped as a duplicate and B is not admitted. *)
Example discovery_stale_report :
  admissible Sample.satisfies Sample.config Sample.ownNode Sample.candB = true
  /\ discover Sample.ownNode Sample.stale0 = [Sample.candBold]
  /\ JSMap.has (_peers (Sample.updatePeers (Sample.updatePeers Sample.stale0))) "b" = false.
Proof. repeat split. Qed.

(** * Further properties of the manager *)

(** ** Lookup after [set] *)

Lemma JSMap_get_set (V : Type) (m : JSMap.t V) (k k' : string) (v : V) :
  JSMap.get (JSMap.set m k v) k'
  = if (k =? k')%string then Some v else JSMap.get m k'.
Proof.
  induction m as [|[k0 v0] m IH]; simpl.
  - reflexivity.
  - destruct (String.eqb_spec k0 k) as [->|Hne]; simpl.
    + destruct (String.eqb_spec k k') as [->|Hk]; [reflexivity|]. reflexivity.
    + rewrite IH. destruct (String.eqb_spec k0 k') as [->|Hk0]; [|reflexivity].
      apply String.eqb_neq in Hne. rewrite String.eqb_sym in Hne. now rewrite Hne.
Qed.

Lemma JSMap_set_keys (V : Type) (m : JSMap.t V) (k : string) (v : V) :
  JSMap.get m k <> None -> JSMap.keys (JSMap.set m k v) = JSMap.keys m.
Proof.
  intros Hg. apply JSMapFacts.set_keys_present. unfold JSMap.has.
  now destruct (JSMap.get m k).
Qed.

Section HandlerFacts.
Context {P : Type} `{PC : PeerConnection P}.

Implicit Types (m : PeerManager P) (n : string).

(** The nonce a status update is looked up under: a missing or empty nonce
    selects nothing. *)
Lemma handleStatusUpdate_target_spec update m :
  handleStatusUpdate_target update m
  = match update_nonce update with
    | Some n => if (n =? "")%string then None
                else option_map (fun p => (n, p)) (JSMap.get (_peers m) n)
    | None => None
    end.
Proof.
  unfold handleStatusUpdate_target, JS.truthy.
  destruct (update_nonce update) as [n|]; [|reflexivity].
  destruct (n =? "")%string; simpl; [reflexivity|].
  now destruct (JSMap.get (_peers m) n).
Qed.

Lemma handleStatusUpdate_get update m k :
  JSMap.get (_peers (handleStatusUpdate update m)) k
  = match update_nonce update with
    | Some n =>
        if negb (n =? "")%string && (n =? k)%string
        then option_map (peer_handleStatusUpdate update) (JSMap.get (_peers m) n)
        else JSMap.get (_peers m) k
    | None => JSMap.get (_peers m) k
    end.
Proof.
  unfold handleStatusUpdate. rewrite handleStatusUpdate_target_spec.
  destruct (update_nonce update) as [n|]; [|reflexivity].
  destruct (n =? "")%string; simpl; [reflexivity|].
  destruct (JSMap.get (_peers m) n) as [p|] eqn:Hg; simpl.
  - rewrite JSMap_get_set. now destruct (n =? k)%string.
  - destruct (String.eqb_spec n k) as [<-|]; [now rewrite Hg | reflexivity].
Qed.

Lemma wsServerConnectionChanged_get n connected m k :
  JSMap.get (_peers (wsServerConnectionChanged n connected m)) k
  = if (n =? k)%string
    then option_map (peer_setWebsocketServerConnected connected) (JSMap.get (_peers m) n)
    else JSMap.get (_peers m) k.
Proof.
  unfold wsServerConnectionChanged, JSMap.has.
  destruct (JSMap.get (_peers m) n) as [p|] eqn:Hg; simpl.
  - rewrite JSMap_get_set. now destruct (n =? k)%string.
  - destruct (String.eqb_spec n k) as [<-|]; [now rewrite Hg | reflexivity].
Qed.

Lemma wsServerConnectionChanged_bestBroadhash n connected m :
  bestBroadhash (wsServerConnectionChanged n connected m) = bestBroadhash m.
Proof.
  unfold wsServerConnectionChanged.
  destruct (negb _); [reflexivity|].
  now destruct (JSMap.get (_peers m) n).
Qed.

End HandlerFacts.

(** ** More on the staging pass and the loop over [newPeers] *)

Section StagingFacts.
Context {P : Type} `{PC : PeerConnection P}.
Variable satisfies : string -> string -> bool.
Variable config : Config.
Variable ownNode : OwnNodeOptions.

Local Abbreviation AddPeer := (addPeer satisfies config ownNode).
Local Abbreviation UpdatePeers := (updatePeers satisfies config ownNode).
Local Abbreviation Admissible := (admissible satisfies config ownNode).
Local Abbreviation NewPeer := (new_peer_of config ownNode).
Local Abbreviation Discover := (discover ownNode).
Local Abbreviation AddPeers :=
  (fold_left (fun acc peer => addPeer satisfies config ownNode peer acc)).
Local Abbreviation Stage := (stage_step ownNode).

Implicit Types (m : PeerManager P) (peer : PeerInfo) (n : string).

(** One round of the staging loop either keeps [newPeers] or appends the
    candidate; it appends only a candidate that no registered record and no
    staged candidate carries the nonce of, and, when something is staged
    already, only one that does not carry the own nonce. *)
Lemma stage_step_cases (registry : list P) (acc : list PeerInfo) peer :
  Stage registry acc peer = acc
  \/ (Stage registry acc peer = acc ++ [peer]
      /\ find (fun item => (opt_nonce (peer_options item) =? nonce peer)%string) registry
         = None
      /\ ~ In (nonce peer) (map nonce acc)
      /\ (acc <> [] -> nonce peer <> own_nonce ownNode)).
Proof.
  unfold stage_step.
  destruct (find _ registry) eqn:Hreg; [now left|].
  destruct (find _ acc) as [item|] eqn:Hacc; [now left|].
  right. repeat split.
  - intros Hin. apply in_map_iff in Hin as (c & Hc & Hin).
    eapply find_none in Hacc; [|exact Hin]. simpl in Hacc.
    apply orb_false_elim in Hacc as [Hacc _].
    apply String.eqb_neq in Hacc. congruence.
  - intros Hne Hown. destruct acc as [|c acc]; [now apply Hne|].
    eapply find_none in Hacc; [|now left]. simpl in Hacc.
    apply orb_false_elim in Hacc as [_ Hacc].
    apply String.eqb_neq in Hacc. contradiction.
Qed.

(** An invariant of [newPeers] established before the loop and kept by
    every append holds after the loop. *)
Lemma stage_fold_invariant (registry : list P) (Q : list PeerInfo -> Prop) :
  forall (l acc : list PeerInfo),
    Q acc ->
    (forall acc' peer,
        Q acc' -> In peer l ->
        find (fun item => (opt_nonce (peer_options item) =? nonce peer)%string) registry
        = None ->
        ~ In (nonce peer) (map nonce acc') ->
        (acc' <> [] -> nonce peer <> own_nonce ownNode) ->
        Q (acc' ++ [peer])) ->
    Q (fold_left (Stage registry) l acc).
Proof.
  induction l as [|peer l IH]; intros acc Hacc Hstep; simpl; [assumption|].
  apply IH.
  - destruct (stage_step_cases registry acc peer) as [->|(-> & H1 & H2 & H3)];
      [assumption|].
    apply Hstep; auto. now left.
  - intros acc' peer' HQ Hin. apply Hstep; [assumption | now right].
Qed.

Lemma discover_NoDup m : NoDup (map nonce (Discover m)).
Proof.
  unfold discover.
  apply (stage_fold_invariant (peers m) (fun acc => NoDup (map nonce acc))).
  - constructor.
  - intros acc peer Hnd _ _ Hfresh _. rewrite map_app. simpl.
    apply NoDup_app; [assumption | repeat constructor; intros [] |].
    intros a Ha [<-|[]]. contradiction.
Qed.

Lemma discover_reported m :
  Forall (fun peer =>
            In peer (peerList m)
            /\ find (fun item => (opt_nonce (peer_options item) =? nonce peer)%string)
                    (peers m) = None) (Discover m).
Proof.
  unfold discover.
  apply (stage_fold_invariant (peers m)
           (Forall (fun peer =>
                      In peer (peerList m)
                      /\ find (fun item =>
                                 (opt_nonce (peer_options item) =? nonce peer)%string)
                              (peers m) = None))).
  - constructor.
  - intros acc peer Hall Hin Hreg _ _. apply Forall_app. split; [assumption|].
    constructor; [now split | constructor].
Qed.

Lemma discover_own_only_first m :
  Forall (fun peer => nonce peer <> own_nonce ownNode) (tl (Discover m)).
Proof.
  unfold discover.
  apply (stage_fold_invariant (peers m)
           (fun acc => Forall (fun peer => nonce peer <> own_nonce ownNode) (tl acc))).
  - constructor.
  - intros acc peer Hall _ _ _ Hown. destruct acc as [|c acc]; simpl; [constructor|].
    simpl in Hall. apply Forall_app. split; [assumption|].
    constructor; [apply Hown; discriminate | constructor].
Qed.

(** The loop over [newPeers], on candidates of distinct nonces none of
    which is registered: the admissible ones are appended in order. *)
Lemma addPeers_append (l : list PeerInfo) : forall m,
  NoDup (map nonce l) ->
  Forall (fun c => JSMap.get (_peers m) (nonce c) = None) l ->
  _peers (AddPeers l m)
  = _peers m ++ map (fun c => (nonce c, NewPeer c)) (filter Admissible l).
Proof.
  induction l as [|c l IH]; simpl; intros m Hnd Habs.
  - now rewrite app_nil_r.
  - apply NoDup_cons_iff in Hnd as [Hc Hnd].
    apply Forall_cons_iff in Habs as [Hgc Habs].
    destruct (Admissible c) eqn:Ha.
    + rewrite (addPeer_admitted satisfies config ownNode c m Ha)
        by now apply JSMapFacts.has_false_get.
      rewrite IH; [simpl; now rewrite <- app_assoc | assumption |].
      simpl. apply Forall_forall. intros c' Hc'.
      rewrite JSMapFacts.get_app.
      rewrite (proj1 (Forall_forall _ _) Habs c' Hc'). simpl.
      destruct (String.eqb_spec (nonce c) (nonce c')) as [He|]; [|reflexivity].
      exfalso. apply Hc. rewrite He. now apply in_map.
    + rewrite (addPeer_rejected satisfies config ownNode c m Ha). now apply IH.
Qed.

Lemma addPeers_unchanged (l : list PeerInfo) m :
  Forall (fun c => JSMap.has (_peers m) (nonce c) = true \/ Admissible c = false) l ->
  AddPeers l m = m.
Proof.
  induction 1 as [|c l Hc _ IH]; simpl; [reflexivity|].
  destruct Hc as [Hh|Ha].
  - now rewrite (addPeer_present satisfies config ownNode c m Hh).
  - now rewrite (addPeer_rejected satisfies config ownNode c m Ha).
Qed.

Lemma updatePeers_peers_eq m :
  _peers (UpdatePeers m)
  = _peers (AddPeers (Discover m) m).
Proof.
  unfold updatePeers.
  set (m1 := {| _peers := _peers m; bestHeight := _; bestBroadhash := _ |}).
  assert (Hgen : forall l a b, _peers a = _peers b ->
                               _peers (AddPeers l a) = _peers (AddPeers l b)).
  { induction l as [|c l IH]; simpl; intros a b Hab; [assumption|].
    apply IH. unfold addPeer. rewrite Hab.
    destruct (_ || _); [assumption|].
    destruct (JSMap.has (_peers b) (nonce c)); [assumption|].
    destruct (negb _); [assumption|]. reflexivity. }
  now apply Hgen.
Qed.

Lemma updatePeers_bestBroadhash m :
  bestBroadhash (UpdatePeers m)
  = snd (fold_left best_step (peers m) (bestHeight m, bestBroadhash m)).
Proof.
  unfold updatePeers.
  apply (addPeers_preserve satisfies config ownNode
           (fun m' => bestBroadhash m'
                      = snd (fold_left best_step (peers m)
                                       (bestHeight m, bestBroadhash m)))).
  - intros peer m' Hm'. now rewrite addPeer_bestBroadhash.
  - reflexivity.
Qed.

Lemma best_step_raise acc (x : P) st :
  peer_status x = Some st -> fst acc < height st ->
  best_step acc x = (height st, broadhash st).
Proof.
  intros Hx Hlt. unfold best_step. rewrite Hx.
  apply Z.gtb_lt in Hlt. now rewrite Hlt.
Qed.

Lemma best_step_keep acc (x : P) :
  match peer_status x with Some st => height st <= fst acc | None => True end ->
  best_step acc x = acc.
Proof.
  unfold best_step. destruct (peer_status x) as [st|]; [|reflexivity].
  intros Hle. rewrite Z.gtb_ltb. apply Z.ltb_ge in Hle. now rewrite Hle.
Qed.

(** The loop over the statuses: either the pair is kept and no status is
    above the starting height, or the pair is that of the first record, in
    registry order, whose status carries the greatest height. *)
Lemma best_fold_spec (l : list P) : forall acc,
  (fold_left best_step l acc = acc
   /\ Forall (fun q => match peer_status q with
                       | Some st => height st <= fst acc
                       | None => True
                       end) l)
  \/ (exists l1 p st l2,
        l = l1 ++ p :: l2 /\ peer_status p = Some st
        /\ fold_left best_step l acc = (height st, broadhash st)
        /\ fst acc < height st
        /\ Forall (fun q => match peer_status q with
                            | Some st' => height st' < height st
                            | None => True
                            end) l1
        /\ Forall (fun q => match peer_status q with
                            | Some st' => height st' <= height st
                            | None => True
                            end) l2).
Proof.
  induction l as [|x l IH] using rev_ind; intros acc.
  - left. split; [reflexivity | constructor].
  - rewrite fold_left_app. simpl.
    set (r := fold_left best_step l acc).
    assert (Hcase : match peer_status x with
                    | Some sx => height sx <= fst r
                    | None => True
                    end
                    \/ exists sx, peer_status x = Some sx /\ fst r < height sx).
    { destruct (peer_status x) as [sx|]; [|now left].
      destruct (Z_le_gt_dec (height sx) (fst r)); [now left | right].
      exists sx. split; [reflexivity | lia]. }
    destruct Hcase as [Hkeep|(sx & Hx & Hgt)].
    + rewrite (best_step_keep r x Hkeep). subst r.
      destruct (IH acc) as [[Hr Hall]|(l1 & p & st & l2 & Hl & Hp & Hr & Hlt & H1 & H2)].
      * left. split; [assumption|]. rewrite Hr in Hkeep.
        apply Forall_app. split; [assumption|]. now constructor.
      * right. exists l1, p, st, (l2 ++ [x]). rewrite Hr in Hkeep. simpl in Hkeep.
        repeat split; auto.
        -- subst l. now rewrite <- app_assoc.
        -- apply Forall_app. split; [assumption|]. now constructor.
    + rewrite (best_step_raise r x Hx Hgt). subst r.
      right. exists l, x, sx, [].
      destruct (IH acc) as [[Hr Hall]|(l1 & p & st & l2 & Hl & Hp & Hr & Hlt & H1 & H2)];
        rewrite Hr in Hgt; simpl in Hgt.
      * repeat split; auto.
        eapply Forall_impl; [|exact Hall]. simpl. intros q Hq.
        destruct (peer_status q); [lia | exact I].
      * repeat split; auto; [lia|].
        subst l. apply Forall_app. split.
        -- eapply Forall_impl; [|exact H1]. simpl. intros q Hq.
           destruct (peer_status q); [lia | exact I].
        -- constructor; [rewrite Hp; lia|].
           eapply Forall_impl; [|exact H2]. simpl. intros q Hq.
           destruct (peer_status q); [lia | exact I].
Qed.

End StagingFacts.

(** ** Further properties of the manager *)

Section ManagerProperties.
Context {P : Type} `{PC : PeerConnection P}.
Variable satisfies : string -> string -> bool.
Variable config : Config.
Variable ownNode : OwnNodeOptions.

Local Abbreviation AddPeer := (addPeer satisfies config ownNode).
Local Abbreviation UpdatePeers := (updatePeers satisfies config ownNode).
Local Abbreviation Constructor := (constructor satisfies config ownNode).
Local Abbreviation Run := (run satisfies config ownNode).
Local Abbreviation Step := (step satisfies config ownNode).
Local Abbreviation Admissible := (admissible satisfies config ownNode).
Local Abbreviation NewPeer := (new_peer_of config ownNode).
Local Abbreviation Discover := (discover ownNode).

Implicit Types (m : PeerManager P) (peer : PeerInfo) (n : string).

(** Helpers. *)

Lemma addPeer_get peer m k :
  JSMap.get (_peers (AddPeer peer m)) k
  = match JSMap.get (_peers m) k with
    | Some v => Some v
    | None => if (nonce peer =? k)%string && Admissible peer
              then Some (NewPeer peer) else None
    end.
Proof.
  destruct (addPeer_cases satisfies config ownNode peer m)
    as [[-> [Hr|Hh]]|(Ha & Hh & ->)].
  - rewrite Hr, andb_false_r. now destruct (JSMap.get (_peers m) k).
  - destruct (JSMap.get (_peers m) k) eqn:Hg; [reflexivity|].
    destruct (String.eqb_spec (nonce peer) k) as [<-|]; [|reflexivity].
    apply JSMapFacts.has_get in Hh as [v Hv]. congruence.
  - simpl. rewrite JSMapFacts.get_app, Ha, andb_true_r.
    destruct (JSMap.get (_peers m) k); [reflexivity|]. simpl.
    now destruct (nonce peer =? k)%string.
Qed.

Lemma addPeer_keys_grow peer m :
  exists added, JSMap.keys (_peers (AddPeer peer m)) = JSMap.keys (_peers m) ++ added.
Proof.
  destruct (addPeer_cases satisfies config ownNode peer m) as [[-> _]|(_ & _ & ->)].
  - exists []. now rewrite app_nil_r.
  - exists [nonce peer]. unfold JSMap.keys. simpl. now rewrite map_app.
Qed.

Lemma step_keys_grow m (op : Op P) :
  exists added, JSMap.keys (_peers (Step m op)) = JSMap.keys (_peers m) ++ added.
Proof.
  destruct op; cbn [step].
  - apply addPeer_keys_grow.
  - unfold updatePeers.
    apply (addPeers_preserve satisfies config ownNode
             (fun m' => exists added,
                  JSMap.keys (_peers m') = JSMap.keys (_peers m) ++ added)).
    + intros peer m' [added Hm'].
      destruct (addPeer_keys_grow peer m') as [added' Hadd].
      exists (added ++ added'). now rewrite Hadd, Hm', app_assoc.
    + exists []. simpl. now rewrite app_nil_r.
  - exists []. now rewrite handleStatusUpdate_keys, app_nil_r.
  - exists []. now rewrite wsServerConnectionChanged_keys, app_nil_r.
  - exists []. now rewrite transport_keys, app_nil_r.
Qed.

Lemma step_bestBroadhash_kept m (op : Op P) :
  bestHeight (Step m op) = bestHeight m -> bestBroadhash (Step m op) = bestBroadhash m.
Proof.
  destruct op; cbn [step].
  - intros _. apply addPeer_bestBroadhash.
  - rewrite updatePeers_bestHeight, updatePeers_bestBroadhash.
    destruct (best_fold_spec (peers m) (bestHeight m, bestBroadhash m))
      as [[-> _]|(l1 & p & st & l2 & _ & _ & -> & Hlt & _)]; simpl in *.
    + reflexivity.
    + lia.
  - intros _. apply handleStatusUpdate_bestBroadhash.
  - intros _. apply wsServerConnectionChanged_bestBroadhash.
  - reflexivity.
Qed.

Lemma set_keyed_by_nonce (ps : JSMap.t P) k (v : P) :
  Forall (fun e => opt_nonce (peer_options (snd e)) = fst e) ps ->
  opt_nonce (peer_options v) = k ->
  Forall (fun e => opt_nonce (peer_options (snd e)) = fst e) (JSMap.set ps k v).
Proof.
  intros Hps Hv. induction Hps as [|[k0 v0] ps H0 Hps IH]; simpl.
  - now repeat constructor.
  - destruct (String.eqb_spec k0 k) as [->|]; constructor; simpl; auto.
Qed.

Lemma get_keyed_by_nonce (ps : JSMap.t P) k (v : P) :
  Forall (fun e => opt_nonce (peer_options (snd e)) = fst e) ps ->
  JSMap.get ps k = Some v -> opt_nonce (peer_options v) = k.
Proof.
  intros Hps. induction Hps as [|[k0 v0] ps H0 _ IH]; simpl; [discriminate|].
  destruct (String.eqb_spec k0 k) as [->|]; [intros [= <-]; exact H0 | exact IH].
Qed.

Lemma step_keyed_by_nonce m (op : Op P) :
  methods_keep_options ->
  match op with OpTransport f => keeps_options f | _ => True end ->
  keyed_by_nonce m -> keyed_by_nonce (Step m op).
Proof.
  intros [Hst Hws] Hop Hk. destruct op; cbn [step].
  - now apply addPeer_keyed_by_nonce.
  - now apply updatePeers_keyed_by_nonce.
  - unfold handleStatusUpdate. rewrite handleStatusUpdate_target_spec.
    destruct (update_nonce update) as [n|]; [|assumption].
    destruct (n =? "")%string; [assumption|].
    destruct (JSMap.get (_peers m) n) as [p|] eqn:Hg; [|assumption].
    simpl. apply set_keyed_by_nonce; [assumption|].
    rewrite Hst. now apply get_keyed_by_nonce with (ps := _peers m).
  - unfold wsServerConnectionChanged.
    destruct (negb _); [assumption|].
    destruct (JSMap.get (_peers m) n) as [p|] eqn:Hg; [|assumption].
    simpl. apply set_keyed_by_nonce; [assumption|].
    rewrite Hws. now apply get_keyed_by_nonce with (ps := _peers m).
  - unfold keyed_by_nonce, transport in *. simpl.
    apply Forall_map. eapply Forall_impl; [|exact Hk].
    intros [k v] Hkv. simpl in *. now rewrite Hop.
Qed.

Lemma constructor_keyed_by_nonce : keyed_by_nonce Constructor.
Proof.
  unfold constructor. apply addPeer_keyed_by_nonce. constructor.
Qed.

(** X1: a status update whose nonce is missing, empty or not registered
    changes nothing: no record is touched and no peer is admitted. *)
Theorem handleStatusUpdate_ignores_unknown (update : StatusUpdate) m :
  update_nonce update = None \/ update_nonce update = Some ""
  \/ (exists n, update_nonce update = Some n /\ JSMap.has (_peers m) n = false) ->
  handleStatusUpdate update m = m.
Proof.
  intros Hu. unfold handleStatusUpdate. rewrite handleStatusUpdate_target_spec.
  destruct Hu as [->|[->|(n & -> & Hn)]]; try reflexivity.
  apply JSMapFacts.has_false_get in Hn. rewrite Hn.
  now destruct (n =? "")%string.
Qed.

(** X2: a status update keeps the keys of the registry and their order, the
    best height and the best broadhash; the record stored under the update's
    non-empty nonce becomes the one its [handleStatusUpdate] method returns,
    and every other record is the one stored before. *)
Theorem handleStatusUpdate_touches_one_record (update : StatusUpdate) m :
  JSMap.keys (_peers (handleStatusUpdate update m)) = JSMap.keys (_peers m)
  /\ bestHeight (handleStatusUpdate update m) = bestHeight m
  /\ bestBroadhash (handleStatusUpdate update m) = bestBroadhash m
  /\ forall k,
       JSMap.get (_peers (handleStatusUpdate update m)) k
       = match update_nonce update with
         | Some n =>
             if negb (n =? "")%string && (n =? k)%string
             then option_map (peer_handleStatusUpdate update) (JSMap.get (_peers m) n)
             else JSMap.get (_peers m) k
         | None => JSMap.get (_peers m) k
         end.
Proof.
  repeat split.
  - apply handleStatusUpdate_keys.
  - apply handleStatusUpdate_bestHeight.
  - apply handleStatusUpdate_bestBroadhash.
  - intros k. apply handleStatusUpdate_get.
Qed.

(** X3: a connection change keeps the keys of the registry and their order,
    the best height and the best broadhash; for a nonce that is not
    registered it changes nothing; otherwise the record under that nonce
    becomes the one its [setWebsocketServerConnected] method returns and
    every other record is the one stored before. *)
Theorem wsServerConnectionChanged_touches_one_record n (connected : bool) m :
  JSMap.keys (_peers (wsServerConnectionChanged n connected m)) = JSMap.keys (_peers m)
  /\ bestHeight (wsServerConnectionChanged n connected m) = bestHeight m
  /\ bestBroadhash (wsServerConnectionChanged n connected m) = bestBroadhash m
  /\ (JSMap.has (_peers m) n = false -> wsServerConnectionChanged n connected m = m)
  /\ forall k,
       JSMap.get (_peers (wsServerConnectionChanged n connected m)) k
       = if (n =? k)%string
         then option_map (peer_setWebsocketServerConnected connected)
                         (JSMap.get (_peers m) n)
         else JSMap.get (_peers m) k.
Proof.
  repeat split.
  - apply wsServerConnectionChanged_keys.
  - apply wsServerConnectionChanged_bestHeight.
  - apply wsServerConnectionChanged_bestBroadhash.
  - intros Hn. unfold wsServerConnectionChanged. now rewrite Hn.
  - intros k. apply wsServerConnectionChanged_get.
Qed.

(** X4: no operation removes or reorders a registry key: after any
    sequence of operations the keys are those before, in the same order,
    followed by the keys added since. *)
Theorem registry_keys_only_grow (ops : list (Op P)) m :
  exists added, JSMap.keys (_peers (Run ops m)) = JSMap.keys (_peers m) ++ added.
Proof.
  revert m. induction ops as [|op ops IH]; intros m.
  - exists []. simpl. now rewrite app_nil_r.
  - destruct (IH (Step m op)) as [added Hadd].
    destruct (step_keys_grow m op) as [added0 Hstep].
    exists (added0 ++ added).
    change (Run (op :: ops) m) with (Run ops (Step m op)).
    now rewrite Hadd, Hstep, app_assoc.
Qed.

(** X5: on a registry in which every record is stored under the nonce of
    its [options], one tick keeps every entry and appends, in staging order,
    one new record for each staged candidate that passes the checks of
    [addPeer], and nothing else. *)
Theorem updatePeers_appends_admissible m :
  keyed_by_nonce m ->
  _peers (UpdatePeers m)
  = _peers m ++ map (fun c => (nonce c, NewPeer c)) (filter Admissible (Discover m)).
Proof.
  intros Hk. rewrite updatePeers_peers_eq.
  apply addPeers_append; [apply discover_NoDup|].
  eapply Forall_impl; [|apply discover_reported].
  intros c [_ Hreg]. now apply (registered_find (nonce c) Hk).
Qed.

(** X6: the candidates the staging loop hands on carry pairwise different
    nonces; each of them was reported by a registered record, and no
    registered record carries its nonce. *)
Theorem discover_stages_new_nonces_once m :
  NoDup (map nonce (Discover m))
  /\ Forall (fun peer =>
              In peer (peerList m)
              /\ find (fun item => (opt_nonce (peer_options item) =? nonce peer)%string)
                      (peers m) = None) (Discover m).
Proof.
  split; [apply discover_NoDup | apply discover_reported].
Qed.

(** X7: the staging loop drops a candidate that carries the own nonce once
    something is staged; only the first staged candidate can carry it. *)
Theorem discover_own_nonce_only_first m :
  Forall (fun peer => nonce peer <> own_nonce ownNode) (tl (Discover m)).
Proof.
  apply discover_own_only_first.
Qed.

(** X8: when every reported candidate is registered already or does not pass
    the checks of [addPeer], a tick leaves the registry as it is. *)
Theorem updatePeers_quiescent m :
  Forall (fun c => JSMap.has (_peers m) (nonce c) = true \/ Admissible c = false)
         (peerList m) ->
  _peers (UpdatePeers m) = _peers m.
Proof.
  intros Hall. rewrite updatePeers_peers_eq, addPeers_unchanged; [reflexivity|].
  apply Forall_forall. intros c Hc.
  pose proof (proj1 (Forall_forall _ _) (discover_reported ownNode m) c Hc) as [Hin _].
  exact (proj1 (Forall_forall _ _) Hall c Hin).
Qed.

(** X9: a tick either keeps the best height and the best broadhash, and then
    no registered status is above the best height, or it sets both to the
    height and broadhash of the first record, in registry order, whose status
    carries the greatest height, which is then above the former best
    height. *)
Theorem updatePeers_best_pair m :
  (bestHeight (UpdatePeers m) = bestHeight m
   /\ bestBroadhash (UpdatePeers m) = bestBroadhash m
   /\ Forall (fun q => match peer_status q with
                       | Some st => height st <= bestHeight m
                       | None => True
                       end) (peers m))
  \/ (exists l1 p st l2,
        peers m = l1 ++ p :: l2 /\ peer_status p = Some st
        /\ bestHeight (UpdatePeers m) = height st
        /\ bestBroadhash (UpdatePeers m) = broadhash st
        /\ bestHeight m < height st
        /\ Forall (fun q => match peer_status q with
                            | Some st' => height st' < height st
                            | None => True
                            end) l1
        /\ Forall (fun q => match peer_status q with
                            | Some st' => height st' <= height st
                            | None => True
                            end) l2).
Proof.
  rewrite updatePeers_bestHeight, updatePeers_bestBroadhash.
  destruct (best_fold_spec (peers m) (bestHeight m, bestBroadhash m))
    as [[Hr Hall]|(l1 & p & st & l2 & Hl & Hp & Hr & Hlt & H1 & H2)]; rewrite Hr.
  - left. now repeat split.
  - right. exists l1, p, st, l2. now repeat split.
Qed.

(** X10: along any sequence of operations the best broadhash changes only
    together with the best height: if the best height is the same at the end,
    so is the best broadhash. *)
Theorem bestBroadhash_follows_bestHeight (ops : list (Op P)) m :
  bestHeight (Run ops m) = bestHeight m ->
  bestBroadhash (Run ops m) = bestBroadhash m.
Proof.
  revert m. induction ops as [|op ops IH]; intros m; [reflexivity|].
  change (Run (op :: ops) m) with (Run ops (Step m op)). intros Hend.
  pose proof (step_bestHeight_le satisfies config ownNode m op) as H1.
  pose proof (run_bestHeight_le satisfies config ownNode ops (Step m op)) as H2.
  assert (Hstep : bestHeight (Step m op) = bestHeight m) by lia.
  rewrite IH by lia. now apply step_bestBroadhash_kept.
Qed.

(** X11: the records that [getBestHTTPPeer] can return, over all shuffles,
    are exactly the registered HTTP-active records whose height (0 without a
    status) is not negative and is the greatest among the HTTP-active
    records. *)
Theorem getBestHTTPPeer_possible_results m (p : P) :
  getBestHTTPPeer m (JS.Return p)
  <-> In p (peers m) /\ peer_httpActive p = true /\ 0 <= height_or_0 p
      /\ Forall (fun q => peer_httpActive q = true -> height_or_0 q <= height_or_0 p)
                (peers m).
Proof.
  split.
  - intros (shuffled & Hperm & Hr).
    unfold getBestHTTPPeer_of, scan in Hr.
    destruct (scan_fold_spec shuffled (None, 0))
      as [[Hs _]|(l1 & q & l2 & Hl & Hs & Hq & Hge & H1 & H2)];
      rewrite Hs in Hr; simpl in Hr; [discriminate|].
    injection Hr as <-. simpl in Hge.
    repeat split; try assumption.
    + eapply Permutation_in; [exact Hperm|]. subst shuffled. apply in_elt.
    + eapply Permutation_Forall; [exact Hperm|]. subst shuffled.
      apply Forall_app. split; [assumption|].
      constructor; [intros _; lia|].
      eapply Forall_impl; [|exact H2]. simpl. intros q' Hq' Ha.
      specialize (Hq' Ha). lia.
  - intros (Hin & Ha & Hge & Hall).
    apply in_split in Hin as (l1 & l2 & Hl).
    exists ((l1 ++ l2) ++ [p]). split.
    + rewrite Hl. apply Permutation_sym.
      etransitivity; [apply Permutation_sym, Permutation_middle|].
      apply Permutation_cons_append.
    + unfold getBestHTTPPeer_of, scan. rewrite fold_left_app. simpl.
      assert (Hrest : Forall (fun q => peer_httpActive q = true ->
                                       height_or_0 q <= height_or_0 p) (l1 ++ l2)).
      { rewrite Hl in Hall. apply Forall_app in Hall as [H1 H2].
        apply Forall_cons_iff in H2 as [_ H2]. apply Forall_app. now split. }
      assert (Hsnd : snd (fold_left scan_step (l1 ++ l2) (None, 0)) <= height_or_0 p).
      { destruct (scan_fold_spec (l1 ++ l2) (None, 0))
          as [[-> _]|(k1 & q & k2 & Hk & -> & Hq & _ & _ & _)]; simpl; [assumption|].
        apply (proj1 (Forall_forall _ _) Hrest q); [|assumption].
        rewrite Hk. apply in_elt. }
      rewrite scan_step_keep; [reflexivity | assumption | now apply Z.geb_le].
Qed.

(** X12: the constructor starts from best height 0 and an empty best
    broadhash; it registers the seed node, under the empty nonce and as the
    only entry, exactly when the own nonce is not empty and the seed's version
    satisfies the minimum version range; otherwise the registry is empty. *)
Theorem constructor_registers_seed :
  bestHeight Constructor = 0 /\ bestBroadhash Constructor = ""
  /\ _peers Constructor
     = if negb (own_nonce ownNode =? "")%string
          && satisfies (seed_version (seedNode config)) (minVersion config)
       then [("", NewPeer (seedInfo config))] else [].
Proof.
  unfold constructor.
  rewrite addPeer_bestHeight, addPeer_bestBroadhash. repeat split.
  assert (Hseed : Admissible (seedInfo config)
                  = negb (own_nonce ownNode =? "")%string
                    && satisfies (seed_version (seedNode config)) (minVersion config)).
  { unfold admissible, seedInfo. cbn [nonce version].
    change (JS.indexOf "" "monitoring" =? -1) with true.
    now rewrite andb_true_r, String.eqb_sym. }
  rewrite <- Hseed.
  destruct (addPeer_cases satisfies config ownNode (seedInfo config)
              (mkManager (JSMap.empty P) 0 ""))
    as [[-> [Hr|Hh]]|(Ha & _ & ->)]; try discriminate.
  - now rewrite Hr.
  - now rewrite Ha.
Qed.

(** X13: when the methods of the peer object and the transport leave the
    [options] of a record alone, in every state reached from the constructor
    each record is stored under the nonce of its [options]; the registry test
    of the staging loop then agrees with the membership test of the map. *)
Theorem reachable_keyed_by_nonce (ops : list (Op P)) :
  methods_keep_options -> ops_keep_options ops ->
  keyed_by_nonce (Run ops Constructor)
  /\ forall n,
       find (fun item => (opt_nonce (peer_options item) =? n)%string)
            (peers (Run ops Constructor)) = None
       <-> JSMap.has (_peers (Run ops Constructor)) n = false.
Proof.
  intros Hm Hops.
  assert (Hk : keyed_by_nonce (Run ops Constructor)).
  { generalize constructor_keyed_by_nonce. generalize Constructor.
    induction Hops as [|op ops Hop _ IH]; intros m Hk; [assumption|].
    change (Run (op :: ops) m) with (Run ops (Step m op)).
    apply IH. now apply step_keyed_by_nonce. }
  split; [assumption|]. intros n.
  rewrite JSMapFacts.has_false_get. now apply registered_find.
Qed.

(** X14: two calls of [addPeer] for different nonces commute up to the order
    of the entries: every nonce is bound to the same record after either
    order. *)
Theorem addPeer_order_irrelevant (c1 c2 : PeerInfo) m :
  nonce c1 <> nonce c2 ->
  forall k, JSMap.get (_peers (AddPeer c1 (AddPeer c2 m))) k
            = JSMap.get (_peers (AddPeer c2 (AddPeer c1 m))) k.
Proof.
  intros Hne k. rewrite !addPeer_get.
  destruct (JSMap.get (_peers m) k); [reflexivity|].
  destruct (String.eqb_spec (nonce c1) k) as [H1|H1];
    destruct (String.eqb_spec (nonce c2) k) as [H2|H2]; simpl.
  - congruence.
  - now destruct (Admissible c1).
  - now destruct (Admissible c2).
  - reflexivity.
Qed.

End ManagerProperties.

(** ** The further properties on concrete managers *)

Lemma handleStatusUpdate_ignores_unknown_witness :
  JSMap.has (_peers Sample.start) "ghost" = false
  /\ handleStatusUpdate Scenario.ghostStatus Sample.start = Sample.start.
Proof.
  split; [reflexivity|].
  apply (@handleStatusUpdate_ignores_unknown SimplePeer _ Scenario.ghostStatus Sample.start).
  right. right. exists "ghost". split; reflexivity.
Defined.

Lemma updatePeers_appends_admissible_witness :
  keyed_by_nonce Sample.twoReports
  /\ JSMap.keys (_peers (Sample.updatePeers Sample.twoReports)) = ["a1"; "a2"; "x"].
Proof.
  assert (Hk : keyed_by_nonce Sample.twoReports) by (repeat constructor).
  split; [exact Hk|].
  unfold Sample.updatePeers.
  rewrite (@updatePeers_appends_admissible SimplePeer _ Sample.satisfies Sample.config
             Sample.ownNode Sample.twoReports Hk).
  reflexivity.
Defined.

(** The own nonce can be staged, as the first candidate only. *)
Example discover_own_nonce_staged :
  discover Sample.ownNode Scenario.selfReports = [Sample.ownCandidate; Sample.candB]
  /\ JSMap.keys (_peers (Sample.updatePeers Scenario.selfReports)) = ["a"; "b"].
Proof. split; reflexivity. Qed.

Lemma updatePeers_quiescent_witness :
  peerList Scenario.settled = [Sample.candB; Sample.oldCandidate]
  /\ _peers (Sample.updatePeers Scenario.settled) = _peers Scenario.settled.
Proof.
  assert (Hpl : peerList Scenario.settled = [Sample.candB; Sample.oldCandidate])
    by reflexivity.
  split; [exact Hpl|].
  apply (@updatePeers_quiescent SimplePeer _ Sample.satisfies Sample.config
           Sample.ownNode Scenario.settled).
  rewrite Hpl.
  apply Forall_cons; [left; reflexivity|].
  apply Forall_cons; [right; reflexivity|].
  apply Forall_nil.
Defined.

(** Two records of the same greatest height: the broadhash of the first in
    registry order is taken, and a second tick keeps it. *)
Example updatePeers_tie_keeps_first_broadhash :
  bestHeight (Sample.updatePeers Scenario.tiedStatus) = 7
  /\ bestBroadhash (Sample.updatePeers Scenario.tiedStatus) = "first"
  /\ bestBroadhash (Sample.updatePeers (Sample.updatePeers Scenario.tiedStatus)) = "first".
Proof. repeat split. Qed.

Lemma bestBroadhash_follows_bestHeight_witness :
  bestHeight (run Sample.satisfies Sample.config Sample.ownNode
                [OpStatus Sample.status100; OpConnection "seed" true] Sample.seeded)
  = bestHeight Sample.seeded
  /\ bestBroadhash (run Sample.satisfies Sample.config Sample.ownNode
                      [OpStatus Sample.status100; OpConnection "seed" true] Sample.seeded)
     = bestBroadhash Sample.seeded.
Proof.
  split; [reflexivity|].
  apply (@bestBroadhash_follows_bestHeight SimplePeer _ Sample.satisfies Sample.config
           Sample.ownNode [OpStatus Sample.status100; OpConnection "seed" true]
           Sample.seeded).
  reflexivity.
Defined.

Lemma reachable_keyed_by_nonce_witness :
  JSMap.keys (_peers (run Sample.satisfies Sample.config Sample.ownNode
                        Scenario.mixedOps Sample.start)) = [""; "b"; "c"]
  /\ keyed_by_nonce (run Sample.satisfies Sample.config Sample.ownNode
                       Scenario.mixedOps Sample.start).
Proof.
  split; [reflexivity|].
  apply (@reachable_keyed_by_nonce SimplePeer _ Sample.satisfies Sample.config
           Sample.ownNode Scenario.mixedOps).
  - split; intros; reflexivity.
  - repeat constructor. intros k p. unfold Sample.refresh.
    destruct (k =? "b")%string; reflexivity.
Defined.

Lemma addPeer_order_irrelevant_witness :
  nonce Sample.candB <> nonce Sample.candC
  /\ JSMap.get (_peers (Sample.addPeer Sample.candB (Sample.addPeer Sample.candC Sample.start))) "c"
     = JSMap.get (_peers (Sample.addPeer Sample.candC (Sample.addPeer Sample.candB Sample.start))) "c".
Proof.
  assert (Hne : nonce Sample.candB <> nonce Sample.candC) by discriminate.
  split; [exact Hne|].
  apply (@addPeer_order_irrelevant SimplePeer _ Sample.satisfies Sample.config
           Sample.ownNode Sample.candB Sample.candC Sample.start Hne "c").
Defined.

(** * Properties of the RocketChat adapter *)

(** ** [timeSince] *)

Lemma div_gt_1 (s len : Z) : 0 < len -> ((s / len >? 1) = true <-> 2 * len <= s).
Proof.
  intros Hlen. rewrite Z.gtb_ltb, Z.ltb_lt. split.
  - intros Hq. pose proof (Z.mul_div_le s len Hlen). nia.
  - intros Hs. enough (2 <= s / len) by lia.
    apply Z.div_le_lower_bound; lia.
Qed.

Lemma div_not_gt_1 (s len : Z) : 0 < len -> ((s / len >? 1) = false <-> s < 2 * len).
Proof.
  intros Hlen. pose proof (div_gt_1 s Hlen) as H.
  destruct (s / len >? 1); split; intros Hx.
  - discriminate.
  - assert (2 * len <= s) by now apply H. lia.
  - destruct (Z_lt_le_dec s (2 * len)) as [Hlt|Hle]; [assumption|].
    apply H in Hle. discriminate.
  - reflexivity.
Qed.

(** ** The map of the blacklist *)

Lemma get_delete (V : Type) (m : JSMap.t V) (k k' : string) :
  JSMap.get (Rocket.delete m k) k'
  = if (k =? k')%string then None else JSMap.get m k'.
Proof.
  unfold Rocket.delete. induction m as [|[k0 v0] m IH]; simpl.
  - now destruct (k =? k')%string.
  - destruct (String.eqb_spec k0 k) as [->|Hne]; simpl.
    + rewrite IH. now destruct (k =? k')%string.
    + rewrite IH. destruct (String.eqb_spec k0 k') as [->|]; [|reflexivity].
      apply String.eqb_neq in Hne. rewrite String.eqb_sym in Hne. now rewrite Hne.
Qed.

Lemma has_set (V : Type) (m : JSMap.t V) (k k' : string) (v : V) :
  JSMap.has (JSMap.set m k v) k' = (k =? k')%string || JSMap.has m k'.
Proof.
  unfold JSMap.has. rewrite JSMap_get_set. now destruct (k =? k')%string.
Qed.

Lemma has_delete (V : Type) (m : JSMap.t V) (k k' : string) :
  JSMap.has (Rocket.delete m k) k' = negb (k =? k')%string && JSMap.has m k'.
Proof.
  unfold JSMap.has. rewrite get_delete. now destruct (k =? k')%string.
Qed.

(** ** The handlers *)

Section RocketFacts.
Context {S : Type} `{E : Rocket.DelegateStatusEnum S}.
Variable convertEpochToSeconds : Z -> Z.
Variable a : Rocket.Adapter.

Local Abbreviation Deliver := (Rocket.deliver convertEpochToSeconds a).
Local Abbreviation After := (Rocket.after convertEpochToSeconds a).
Local Abbreviation RunEvents := (Rocket.run convertEpochToSeconds a).
Local Abbreviation HandleMissedBlock := (Rocket.handleMissedBlock convertEpochToSeconds a).
Local Abbreviation HandleStatusChanged := (Rocket.handleDelegateStatusChanged a).
Local Abbreviation Post :=
  (fun (session : Rocket.AuthSession) (text : string) =>
     Rocket.PostMessage (Rocket.host a ++ "/api/v1/chat.postMessage")%string
       (Rocket.userId session) (Rocket.authToken session)
       (Rocket.defaultChannel a) text).

Implicit Types (s : Rocket.State) (u : string).

Lemma status_eqb_eq (x y : S) : Rocket.status_eqb x y = true <-> x = y.
Proof. destruct (Rocket.status_eqb_spec x y); split; congruence. Qed.

Lemma status_eqb_neq (x y : S) : Rocket.status_eqb x y = false <-> x <> y.
Proof. destruct (Rocket.status_eqb_spec x y); split; congruence. Qed.

Lemma missed_more_not_forged :
  Rocket.status_eqb (Rocket.MISSED_MORE (S := S)) Rocket.FORGED_THIS_ROUND = false.
Proof.
  apply status_eqb_neq. intros Heq.
  pose proof (Rocket.status_distinct (S := S)) as Hnd.
  apply NoDup_cons_iff in Hnd as [Hnin _]. apply Hnin.
  rewrite <- Heq. right. left. reflexivity.
Qed.

Lemma sendMessage_session s session channel text :
  Rocket.authSession s = Some session ->
  Rocket.sendMessage a channel text s
  = JS.Return {| Rocket.authSession := Rocket.authSession s;
                 Rocket.notificationBlacklist := Rocket.notificationBlacklist s;
                 Rocket.outbox :=
                   Rocket.outbox s
                   ++ [Rocket.PostMessage
                         (Rocket.host a ++ "/api/v1/chat.postMessage")%string
                         (Rocket.userId session) (Rocket.authToken session)
                         channel text] |}.
Proof. unfold Rocket.sendMessage. now intros ->. Qed.

Lemma sendMessage_no_session s channel text :
  Rocket.authSession s = None ->
  Rocket.sendMessage a channel text s = JS.Throw "TypeError".
Proof. unfold Rocket.sendMessage. now intros ->. Qed.

(** What one event does to the blacklist. *)
Lemma after_blacklist (ev : Rocket.Event (S := S)) s u :
  JSMap.has (Rocket.notificationBlacklist (After s ev)) u
  = JSMap.has (Rocket.notificationBlacklist s) u
  \/ (JSMap.has (Rocket.notificationBlacklist (After s ev)) u = true
      /\ Rocket.misses u ev)
  \/ (JSMap.has (Rocket.notificationBlacklist (After s ev)) u = false
      /\ Rocket.resumes u ev).
Proof.
  unfold Rocket.after, Rocket.deliver.
  destruct ev as [now d|dd|dd|dd delta|d old new|data].
  - unfold Rocket.handleMissedBlock.
    destruct (_ || _); [now left|].
    destruct (Rocket.details d) as [det|] eqn:Hdet; [|now left].
    destruct (JSMap.has _ (Rocket.username det)); [now left|].
    unfold Rocket.sendMessage.
    destruct (Rocket.authSession s); [|now left]. simpl.
    rewrite has_set.
    destruct (String.eqb_spec (Rocket.username det) u) as [Hu|]; [|now left].
    right. left. split; [reflexivity|]. now exists det.
  - unfold Rocket.handleDelegateDroppedTop, Rocket.sendMessage.
    destruct (Rocket.authSession s); now left.
  - unfold Rocket.handleDelegateNewTop, Rocket.sendMessage.
    destruct (Rocket.authSession s); now left.
  - now left.
  - unfold Rocket.handleDelegateStatusChanged.
    destruct (Rocket.details d) as [det|] eqn:Hdet; [|now left].
    destruct (Rocket.status_eqb new Rocket.FORGED_THIS_ROUND
              && Rocket.status_eqb old Rocket.AWAITING_MISSED_MORE) eqn:Hres.
    + unfold Rocket.sendMessage.
      destruct (Rocket.authSession s); [|now left]. simpl.
      rewrite has_delete.
      destruct (String.eqb_spec (Rocket.username det) u) as [Hu|]; [|now left].
      right. right. split; [reflexivity|].
      apply andb_prop in Hres as [Hn Ho].
      apply status_eqb_eq in Hn, Ho. repeat split; try assumption. now exists det.
    + clear Hres.
      destruct (Rocket.status_eqb new Rocket.MISSED_MORE
                && Rocket.status_eqb old Rocket.AWAITING_MISSED_LAST); [|now left].
      unfold Rocket.sendMessage. destruct (Rocket.authSession s); now left.
  - now left.
Qed.

Lemma after_keeps_blacklisted (ev : Rocket.Event (S := S)) s u :
  JSMap.has (Rocket.notificationBlacklist s) u = true ->
  ~ Rocket.resumes u ev ->
  JSMap.has (Rocket.notificationBlacklist (After s ev)) u = true.
Proof.
  intros Hb Hres.
  destruct (after_blacklist ev s u) as [->|[[Hh _]|[_ Hr]]];
    [assumption | assumption | contradiction].
Qed.

Lemma run_keeps_blacklisted (evs : list (Rocket.Event (S := S))) : forall s u,
  JSMap.has (Rocket.notificationBlacklist s) u = true ->
  Forall (fun ev => ~ Rocket.resumes u ev) evs ->
  JSMap.has (Rocket.notificationBlacklist (RunEvents evs s)) u = true.
Proof.
  induction evs as [|ev evs IH]; intros s u Hb Hall; [assumption|].
  apply Forall_cons_iff in Hall as [Hev Hall].
  change (RunEvents (ev :: evs) s) with (RunEvents evs (After s ev)).
  apply IH; [|assumption]. now apply after_keeps_blacklisted.
Qed.

Lemma handleMissedBlock_blacklisted now (d : Rocket.Delegate S) det s :
  Rocket.details d = Some det ->
  JSMap.has (Rocket.notificationBlacklist s) (Rocket.username det) = true ->
  HandleMissedBlock now d s = JS.Return s.
Proof.
  intros Hd Hb. unfold Rocket.handleMissedBlock. rewrite Hd, Hb.
  now destruct (_ || _).
Qed.

End RocketFacts.

(** X15: [timeSince] prints the elapsed seconds, rounded down to whole
    units, in the largest of years, months, days, hours and minutes that fits
    at least twice into them, and in seconds when none does: never one or
    zero of a unit above seconds, and the seconds themselves, also negative
    ones, below two minutes. *)
Theorem timeSince_largest_doubled_unit (now date : Z) :
  exists u len,
    In (u, len) Rocket.units
    /\ Rocket.timeSince now date
       = (Rocket.numberToString ((now / 1000 - date) / len) ++ u)%string
    /\ (len = 1 \/ 2 * len <= now / 1000 - date)
    /\ Forall (fun ul => len < snd ul -> now / 1000 - date < 2 * snd ul) Rocket.units.
Proof.
  unfold Rocket.timeSince, Rocket.units. cbv zeta.
  set (s := now / 1000 - date).
  destruct (s / 31536000 >? 1) eqn:H1.
  { apply div_gt_1 in H1; [|lia]. exists " years", 31536000.
    repeat split; [now left | now right | ].
    repeat constructor; simpl; lia. }
  apply div_not_gt_1 in H1; [|lia].
  destruct (s / 2592000 >? 1) eqn:H2.
  { apply div_gt_1 in H2; [|lia]. exists " months", 2592000.
    repeat split; [right; now left | now right | ].
    repeat constructor; simpl; lia. }
  apply div_not_gt_1 in H2; [|lia].
  destruct (s / 86400 >? 1) eqn:H3.
  { apply div_gt_1 in H3; [|lia]. exists " days", 86400.
    repeat split; [do 2 right; now left | now right | ].
    repeat constructor; simpl; lia. }
  apply div_not_gt_1 in H3; [|lia].
  destruct (s / 3600 >? 1) eqn:H4.
  { apply div_gt_1 in H4; [|lia]. exists " hours", 3600.
    repeat split; [do 3 right; now left | now right | ].
    repeat constructor; simpl; lia. }
  apply div_not_gt_1 in H4; [|lia].
  destruct (s / 60 >? 1) eqn:H5.
  { apply div_gt_1 in H5; [|lia]. exists " minutes", 60.
    repeat split; [do 4 right; now left | now right | ].
    repeat constructor; simpl; lia. }
  apply div_not_gt_1 in H5; [|lia].
  exists " seconds", 1.
  repeat split; [do 5 right; now left | now rewrite Z.div_1_r | now left | ].
  repeat constructor; simpl; lia.
Qed.

Section RocketProperties.
Context {S : Type} `{E : Rocket.DelegateStatusEnum S}.
Variable convertEpochToSeconds : Z -> Z.
Variable a : Rocket.Adapter.

Local Abbreviation Deliver := (Rocket.deliver convertEpochToSeconds a).
Local Abbreviation After := (Rocket.after convertEpochToSeconds a).
Local Abbreviation RunEvents := (Rocket.run convertEpochToSeconds a).
Local Abbreviation HandleMissedBlock := (Rocket.handleMissedBlock convertEpochToSeconds a).

Implicit Types (s : Rocket.State) (u : string).

(** X16: once [handleMissedBlock] has returned for a delegate whose status
    is neither AWAITING_MISSED_MORE nor MISSED_MORE and whose details are
    present, a later missed block of a delegate of that name changes nothing
    and sends nothing, whatever events arrive in between, as long as none of
    them reports that the delegate forges again. *)
Theorem missed_block_notice_not_repeated (now1 now2 : Z) (d1 d2 : Rocket.Delegate S)
    (det1 det2 : Rocket.DelegateDetails) s s1 (evs : list (Rocket.Event (S := S))) :
  Rocket.status d1 <> Rocket.AWAITING_MISSED_MORE ->
  Rocket.status d1 <> Rocket.MISSED_MORE ->
  Rocket.details d1 = Some det1 ->
  HandleMissedBlock now1 d1 s = JS.Return s1 ->
  Forall (fun ev => ~ Rocket.resumes (Rocket.username det1) ev) evs ->
  Rocket.details d2 = Some det2 ->
  Rocket.username det2 = Rocket.username det1 ->
  HandleMissedBlock now2 d2 (RunEvents evs s1) = JS.Return (RunEvents evs s1).
Proof.
  intros Hs1 Hs2 Hd1 Hret Hevs Hd2 Hu.
  apply handleMissedBlock_blacklisted with (det := det2); [assumption|].
  rewrite Hu. apply run_keeps_blacklisted; [|assumption].
  unfold Rocket.handleMissedBlock in Hret.
  apply status_eqb_neq in Hs1, Hs2. rewrite Hs1, Hs2, Hd1 in Hret. simpl in Hret.
  destruct (JSMap.has (Rocket.notificationBlacklist s) (Rocket.username det1)) eqn:Hb.
  - now injection Hret as <-.
  - unfold Rocket.sendMessage in Hret.
    destruct (Rocket.authSession s); [|discriminate].
    injection Hret as <-. simpl. rewrite has_set. now rewrite String.eqb_refl.
Qed.

(** X17: the blacklist changes only in two ways: a name that is on it after
    an event was on it before or the event reports a missed block of that
    delegate; a name that was on it is still on it unless the event reports
    that the delegate forges again. *)
Theorem blacklist_changes (ev : Rocket.Event (S := S)) s u :
  (JSMap.has (Rocket.notificationBlacklist (After s ev)) u = true ->
   JSMap.has (Rocket.notificationBlacklist s) u = true \/ Rocket.misses u ev)
  /\ (JSMap.has (Rocket.notificationBlacklist s) u = true ->
      JSMap.has (Rocket.notificationBlacklist (After s ev)) u = true
      \/ Rocket.resumes u ev).
Proof.
  destruct (after_blacklist convertEpochToSeconds a ev s u) as [Heq|[[Hh Hm]|[Hh Hr]]].
  - rewrite Heq. split; intros H; now left.
  - split; intros H; [now right | now left].
  - split; intros H; [congruence | now right].
Qed.

(** X18: while the login has not been answered with a session, every event
    the adapter would answer with a message makes its handler throw, and no
    sequence of events other than the answer to the login changes the
    adapter: nothing is sent and nothing is blacklisted. *)
Theorem no_session_no_notice s :
  Rocket.authSession s = None ->
  (forall ev, Rocket.notifies s ev -> Deliver ev s = JS.Throw "TypeError")
  /\ (forall evs,
        Forall (fun ev => match ev with
                          | Rocket.LoginResponse _ => False
                          | _ => True
                          end) evs ->
        RunEvents evs s = s).
Proof.
  intros Hnone.
  assert (Hsend : forall channel text,
             Rocket.sendMessage a channel text s = JS.Throw "TypeError")
    by (intros; now apply sendMessage_no_session).
  assert (Hafter : forall ev,
             match ev with Rocket.LoginResponse _ => False | _ => True end ->
             After s ev = s).
  { intros ev Hev. unfold Rocket.after, Rocket.deliver.
    destruct ev as [now d|dd|dd|dd delta|d old new|data].
    - unfold Rocket.handleMissedBlock.
      destruct (_ || _); [reflexivity|].
      destruct (Rocket.details d) as [det|]; [|reflexivity].
      destruct (JSMap.has _ _); [reflexivity|]. now rewrite Hsend.
    - unfold Rocket.handleDelegateDroppedTop. now rewrite Hsend.
    - unfold Rocket.handleDelegateNewTop. now rewrite Hsend.
    - reflexivity.
    - unfold Rocket.handleDelegateStatusChanged.
      destruct (Rocket.details d) as [det|]; [|reflexivity].
      destruct (Rocket.status_eqb new Rocket.FORGED_THIS_ROUND
                && Rocket.status_eqb old Rocket.AWAITING_MISSED_MORE);
        [now rewrite Hsend|].
      destruct (Rocket.status_eqb new Rocket.MISSED_MORE
                && Rocket.status_eqb old Rocket.AWAITING_MISSED_LAST);
        [now rewrite Hsend | reflexivity].
    - contradiction. }
  split.
  - intros ev Hev. unfold Rocket.deliver.
    destruct ev as [now d|dd|dd|dd delta|d old new|data]; simpl in Hev.
    + destruct Hev as (H1 & H2 & det & Hd & Hb).
      unfold Rocket.handleMissedBlock.
      apply status_eqb_neq in H1, H2. rewrite H1, H2, Hd, Hb. simpl.
      now rewrite Hsend.
    + apply Hsend.
    + apply Hsend.
    + contradiction.
    + destruct Hev as (Hd & Hcase).
      unfold Rocket.handleDelegateStatusChanged.
      destruct (Rocket.details d) as [det|]; [|congruence].
      destruct Hcase as [[-> ->]|[-> ->]].
      * rewrite !(proj2 (status_eqb_eq _ _) eq_refl). simpl. now rewrite Hsend.
      * rewrite missed_more_not_forged, !(proj2 (status_eqb_eq _ _) eq_refl). simpl.
        apply Hsend.
    + contradiction.
  - intros evs Hall. induction Hall as [|ev evs Hev _ IH]; [reflexivity|].
    change (RunEvents (ev :: evs) s) with (RunEvents evs (After s ev)).
    now rewrite Hafter.
Qed.

(** X19: with a session, an event is answered with exactly one message,
    posted to the default channel with the session's identifiers, when it is
    a missed block of a delegate that has details, is not blacklisted and
    whose status is neither AWAITING_MISSED_MORE nor MISSED_MORE, a delegate
    entering or leaving the forging positions, or a status change from
    AWAITING_MISSED_MORE to FORGED_THIS_ROUND or from AWAITING_MISSED_LAST to
    MISSED_MORE of a delegate that has details; any other call of a handler
    leaves the adapter as it is. *)
Theorem notice_exactly_when_notifies (ev : Rocket.Event (S := S)) s session :
  Rocket.authSession s = Some session ->
  (Rocket.notifies s ev ->
   exists text,
     Rocket.outbox (After s ev)
     = Rocket.outbox s
       ++ [Rocket.PostMessage (Rocket.host a ++ "/api/v1/chat.postMessage")%string
             (Rocket.userId session) (Rocket.authToken session)
             (Rocket.defaultChannel a) text])
  /\ (~ Rocket.notifies s ev ->
      match ev with
      | Rocket.LoginResponse data => After s ev = Rocket.loginResponded data s
      | _ => After s ev = s
      end).
Proof.
  intros Hsess.
  assert (Hsend : forall text,
             Rocket.sendMessage a (Rocket.defaultChannel a) text s
             = JS.Return
                 {| Rocket.authSession := Rocket.authSession s;
                    Rocket.notificationBlacklist := Rocket.notificationBlacklist s;
                    Rocket.outbox :=
                      Rocket.outbox s
                      ++ [Rocket.PostMessage
                            (Rocket.host a ++ "/api/v1/chat.postMessage")%string
                            (Rocket.userId session) (Rocket.authToken session)
                            (Rocket.defaultChannel a) text] |})
    by (intros; now apply sendMessage_session).
  unfold Rocket.after, Rocket.deliver.
  destruct ev as [now d|dd|dd|dd delta|d old new|data]; simpl.
  - unfold Rocket.handleMissedBlock. split.
    + intros (H1 & H2 & det & Hd & Hb).
      apply status_eqb_neq in H1, H2. rewrite H1, H2, Hd, Hb. simpl.
      rewrite Hsend. simpl. eauto.
    + intros Hnot.
      destruct (Rocket.status_eqb_spec (Rocket.status d) Rocket.AWAITING_MISSED_MORE)
        as [|H1]; [reflexivity|].
      destruct (Rocket.status_eqb_spec (Rocket.status d) Rocket.MISSED_MORE)
        as [|H2]; [reflexivity|]. simpl.
      destruct (Rocket.details d) as [det|] eqn:Hd; [|reflexivity].
      destruct (JSMap.has _ (Rocket.username det)) eqn:Hb; [reflexivity|].
      exfalso. apply Hnot. repeat split; try assumption. now exists det.
  - unfold Rocket.handleDelegateDroppedTop. rewrite Hsend. simpl.
    split; [eauto | intros Hnot; now destruct Hnot].
  - unfold Rocket.handleDelegateNewTop. rewrite Hsend. simpl.
    split; [eauto | intros Hnot; now destruct Hnot].
  - split; [contradiction | reflexivity].
  - unfold Rocket.handleDelegateStatusChanged. split.
    + intros (Hd & Hcase).
      destruct (Rocket.details d) as [det|]; [|congruence].
      destruct Hcase as [[-> ->]|[-> ->]].
      * rewrite !(proj2 (status_eqb_eq _ _) eq_refl). simpl.
        rewrite Hsend. simpl. eauto.
      * rewrite missed_more_not_forged, !(proj2 (status_eqb_eq _ _) eq_refl). simpl.
        rewrite Hsend. simpl. eauto.
    + intros Hnot.
      destruct (Rocket.details d) as [det|] eqn:Hd; [|reflexivity].
      destruct (Rocket.status_eqb_spec new Rocket.FORGED_THIS_ROUND) as [Hn|Hn];
        destruct (Rocket.status_eqb_spec old Rocket.AWAITING_MISSED_MORE) as [Ho|Ho];
        simpl;
        try (exfalso; apply Hnot; split; [congruence | now left]).
      all: destruct (Rocket.status_eqb_spec new Rocket.MISSED_MORE) as [Hn'|Hn'];
        destruct (Rocket.status_eqb_spec old Rocket.AWAITING_MISSED_LAST) as [Ho'|Ho'];
        simpl; try reflexivity;
        exfalso; apply Hnot; split; [congruence | now right].
  - split; [contradiction | reflexivity].
Qed.

(** X20: with a session, the notice that a delegate forges again takes the
    delegate off the blacklist: for a missed block of a delegate of that
    name, with details and a status that is neither AWAITING_MISSED_MORE nor
    MISSED_MORE, [handleMissedBlock] then posts the missed-block message to
    the default channel again and puts the name back on the blacklist. *)
Theorem resumed_forging_rearms_notice (now : Z) (d d2 : Rocket.Delegate S)
    (det det2 : Rocket.DelegateDetails) s session :
  Rocket.authSession s = Some session ->
  Rocket.details d = Some det ->
  Rocket.status d2 <> Rocket.AWAITING_MISSED_MORE ->
  Rocket.status d2 <> Rocket.MISSED_MORE ->
  Rocket.details d2 = Some det2 ->
  Rocket.username det2 = Rocket.username det ->
  JSMap.has (Rocket.notificationBlacklist
               (After s (Rocket.StatusChanged d Rocket.AWAITING_MISSED_MORE
                           Rocket.FORGED_THIS_ROUND)))
            (Rocket.username det) = false
  /\ exists s',
       HandleMissedBlock now d2
         (After s (Rocket.StatusChanged d Rocket.AWAITING_MISSED_MORE
                     Rocket.FORGED_THIS_ROUND))
       = JS.Return s'
       /\ Rocket.outbox s'
          = Rocket.outbox (After s (Rocket.StatusChanged d Rocket.AWAITING_MISSED_MORE
                                      Rocket.FORGED_THIS_ROUND))
            ++ [Rocket.PostMessage (Rocket.host a ++ "/api/v1/chat.postMessage")%string
                  (Rocket.userId session) (Rocket.authToken session)
                  (Rocket.defaultChannel a)
                  (Rocket.missedBlockText convertEpochToSeconds a now d2 det2)]
       /\ JSMap.has (Rocket.notificationBlacklist s') (Rocket.username det) = true.
Proof.
  intros Hsess Hd H1 H2 Hd2 Hu.
  set (s1 := After s (Rocket.StatusChanged d Rocket.AWAITING_MISSED_MORE
                        Rocket.FORGED_THIS_ROUND)).
  assert (Hs1 : s1 = Rocket.with_blacklist
                       {| Rocket.authSession := Rocket.authSession s;
                          Rocket.notificationBlacklist := Rocket.notificationBlacklist s;
                          Rocket.outbox :=
                            Rocket.outbox s
                            ++ [Rocket.PostMessage
                                  (Rocket.host a ++ "/api/v1/chat.postMessage")%string
                                  (Rocket.userId session) (Rocket.authToken session)
                                  (Rocket.defaultChannel a) (Rocket.resumedText a det)] |}
                       (Rocket.delete (Rocket.notificationBlacklist s)
                                      (Rocket.username det))).
  { unfold s1, Rocket.after, Rocket.deliver, Rocket.handleDelegateStatusChanged.
    rewrite Hd, !(proj2 (status_eqb_eq _ _) eq_refl). simpl.
    now rewrite (sendMessage_session a s _ _ Hsess). }
  assert (Hoff : JSMap.has (Rocket.notificationBlacklist s1) (Rocket.username det) = false).
  { rewrite Hs1. simpl. rewrite has_delete. now rewrite String.eqb_refl. }
  assert (Hsess1 : Rocket.authSession s1 = Some session)
    by (rewrite Hs1; exact Hsess).
  split; [exact Hoff|].
  unfold Rocket.handleMissedBlock.
  apply status_eqb_neq in H1, H2. rewrite H1, H2, Hd2. simpl.
  rewrite Hu, Hoff.
  rewrite (sendMessage_session a s1 _ _ Hsess1).
  eexists. split; [reflexivity|]. simpl. split; [reflexivity|].
  rewrite has_set. now rewrite String.eqb_refl.
Qed.

End RocketProperties.

(** ** The adapter on concrete events *)

#[local] Existing Instance Rocket.SampleStatus_enum.

(** A year and a half is shown in months, ninety seconds in seconds, and a
    date in the future as negative seconds. *)
Example timeSince_samples :
  Rocket.timeSince 47304000000 0 = "18 months"
  /\ Rocket.timeSince 90000 0 = "90 seconds"
  /\ Rocket.timeSince 120000 0 = "2 minutes"
  /\ Rocket.timeSince 0 5 = "-5 seconds".
Proof. repeat split. Qed.

Lemma missed_block_notice_not_repeated_witness :
  let s1 := Rocket.after Rocket.sampleEpoch Rocket.sampleAdapter Rocket.loggedIn
              (Rocket.MissedBlock 1464110300000 Rocket.aliceMissed) in
  let evs := [Rocket.DroppedTop Rocket.alice;
              Rocket.StatusChanged Rocket.aliceMissed
                Rocket.S_AWAITING_MISSED_LAST Rocket.S_MISSED_MORE] in
  List.length (Rocket.outbox s1) = 2%nat
  /\ Rocket.handleMissedBlock Rocket.sampleEpoch Rocket.sampleAdapter 1464110400000
       Rocket.aliceMissed (Rocket.run Rocket.sampleEpoch Rocket.sampleAdapter evs s1)
     = JS.Return (Rocket.run Rocket.sampleEpoch Rocket.sampleAdapter evs s1).
Proof.
  intros s1 evs. split; [reflexivity|].
  apply (@missed_block_notice_not_repeated Rocket.SampleStatus Rocket.SampleStatus_enum
           Rocket.sampleEpoch Rocket.sampleAdapter 1464110300000 1464110400000
           Rocket.aliceMissed Rocket.aliceMissed Rocket.alice Rocket.alice
           Rocket.loggedIn s1 evs).
  - discriminate.
  - discriminate.
  - reflexivity.
  - reflexivity.
  - apply Forall_cons; [intros []|].
    apply Forall_cons; [intros (H & _); discriminate H|].
    apply Forall_nil.
  - reflexivity.
  - reflexivity.
Defined.

Lemma no_session_no_notice_witness :
  Rocket.authSession (Rocket.constructor Rocket.sampleAdapter) = None
  /\ Rocket.deliver Rocket.sampleEpoch Rocket.sampleAdapter
       (Rocket.MissedBlock 1464110300000 Rocket.aliceMissed)
       (Rocket.constructor Rocket.sampleAdapter)
     = JS.Throw "TypeError".
Proof.
  split; [reflexivity|].
  apply (proj1 (@no_session_no_notice Rocket.SampleStatus Rocket.SampleStatus_enum
                  Rocket.sampleEpoch Rocket.sampleAdapter
                  (Rocket.constructor Rocket.sampleAdapter) eq_refl)).
  repeat split; try discriminate. exists Rocket.alice. split; reflexivity.
Defined.

Lemma notice_exactly_when_notifies_witness :
  Rocket.authSession Rocket.loggedIn = Some Rocket.sampleSession
  /\ exists text,
       Rocket.outbox (Rocket.after Rocket.sampleEpoch Rocket.sampleAdapter Rocket.loggedIn
                        (Rocket.NewTop Rocket.alice))
       = Rocket.outbox Rocket.loggedIn
         ++ [Rocket.PostMessage "https://chat/api/v1/chat.postMessage" "u1" "t1"
               "#delegates" text].
Proof.
  split; [reflexivity|].
  apply (proj1 (@notice_exactly_when_notifies Rocket.SampleStatus Rocket.SampleStatus_enum
                  Rocket.sampleEpoch Rocket.sampleAdapter
                  (Rocket.NewTop Rocket.alice) Rocket.loggedIn Rocket.sampleSession
                  eq_refl)).
  exact I.
Defined.

Lemma resumed_forging_rearms_notice_witness :
  let s1 := Rocket.after Rocket.sampleEpoch Rocket.sampleAdapter Rocket.loggedIn
              (Rocket.MissedBlock 1464110300000 Rocket.aliceMissed) in
  let s2 := Rocket.after Rocket.sampleEpoch Rocket.sampleAdapter s1
              (Rocket.StatusChanged Rocket.aliceMissed Rocket.S_AWAITING_MISSED_MORE
                 Rocket.S_FORGED_THIS_ROUND) in
  Rocket.authSession s1 = Some Rocket.sampleSession
  /\ JSMap.has (Rocket.notificationBlacklist s1) "alice" = true
  /\ JSMap.has (Rocket.notificationBlacklist s2) "alice" = false
  /\ exists s',
       Rocket.handleMissedBlock Rocket.sampleEpoch Rocket.sampleAdapter 1464110400000
         Rocket.aliceMissed s2 = JS.Return s'
       /\ Rocket.outbox s'
          = Rocket.outbox s2
            ++ [Rocket.PostMessage "https://chat/api/v1/chat.postMessage" "u1" "t1"
                  "#delegates"
                  (Rocket.missedBlockText Rocket.sampleEpoch Rocket.sampleAdapter
                     1464110400000 Rocket.aliceMissed Rocket.alice)]
       /\ JSMap.has (Rocket.notificationBlacklist s') "alice" = true.
Proof.
  intros s1 s2. split; [reflexivity|]. split; [reflexivity|].
  refine (@resumed_forging_rearms_notice Rocket.SampleStatus Rocket.SampleStatus_enum
            Rocket.sampleEpoch Rocket.sampleAdapter 1464110400000
            Rocket.aliceMissed Rocket.aliceMissed Rocket.alice Rocket.alice
            s1 Rocket.sampleSession eq_refl eq_refl _ _ eq_refl eq_refl);
    discriminate.
Defined.
